(** * Matrix norms: a shallow embedding of [matrix_operations.py] and
      [matrix_norms.py]

    The Python functions are embedded as Rocq functions over lists of lists.
    Exceptions are threaded through an error monad, [for] loops are folds that
    stop at the first exception, and in-place updates such as
    [transposed_matrix[j][i] = ...] are list updates by index that are
    checked against the length first, as Python does.

    Matrix entries are any Python numbers: the embedding is generic over a
    small interface ([PyNum]), with the integers [Z] for the concrete
    scenarios.  Python floats are modelled by the real numbers they denote.
    The numpy calls of [compute_eigenvalues] are not part of the repository:
    the eigenvalue routine is a parameter of the development, and only the
    shape that [np.array] gives to a list of lists is modelled.
    [frobenius_norm] is embedded on integer matrices, and of
    [vector_norms.py] the functions [one_norm], [max_norm] and
    [previous_difference_norm]; [p_norm] and the vector [two_norm] built on
    it raise floats to float powers and are left out.

    The file has two parts: the definitions (the runtime, the functions of
    the two source files, the vocabulary of the statements), then the
    theorems. *)

From stdpp Require Import base list.
From Stdlib Require Import ZArith Reals Lra Lia.

Open Scope Z_scope.

(** * Part I: definitions *)

(** ** Python runtime *)

(** The exceptions the embedded functions can raise. *)
Inductive exn : Set :=
| IndexError          (* list or tuple index out of range *)
| EmptyMaxError       (* ValueError: max() of an empty sequence *)
| ShapeError          (* ValueError: The matrix must be square *)
| NumpyError          (* an error raised inside np.array or np.linalg.eigvals *)
| OverflowError.      (* float() of an integer too large for a float *)

(** A Python computation: it returns a value or raises. *)
Inductive py (T : Type) : Type :=
| Return (x : T)
| Raise (e : exn).
Arguments Return {T} x.
Arguments Raise {T} e.

#[global] Instance py_ret : MRet py := fun _ x => Return x.
#[global] Instance py_bind : MBind py := fun _ _ f c =>
  match c with
  | Return x => f x
  | Raise e => Raise e
  end.

(** [l[i]] for a non-negative index. *)
Definition py_get {T} (l : list T) (i : nat) : py T :=
  match l !! i with
  | Some x => Return x
  | None => Raise IndexError
  end.

(** [l[i] = v] for a non-negative index: the list after the assignment. *)
Definition py_set {T} (l : list T) (i : nat) (v : T) : py (list T) :=
  if (i <? length l)%nat then Return (<[i := v]> l) else Raise IndexError.

(** [for x in xs: s = body(x, s)], stopping at the first exception. *)
Fixpoint for_each {T St} (xs : list T) (body : T -> St -> py St) (s : St)
    : py St :=
  match xs with
  | [] => Return s
  | x :: xs' => s' ← body x s; for_each xs' body s'
  end.

(** [for k in range(n): s = body(k, s)]. *)
Definition for_range {St} (n : nat) (body : nat -> St -> py St) (s : St)
    : py St :=
  for_each (seq 0 n) body s.

(** [max(l)]: the first greatest element, by [>]; raises on an empty
    sequence. *)
Definition py_max {T} (gtb : T -> T -> bool) (l : list T) : py T :=
  match l with
  | [] => Raise EmptyMaxError
  | x :: xs => Return (foldl (fun best y => if gtb y best then y else best) x xs)
  end.

(** The operations the code uses on matrix entries.  [py_zero] is the
    integer literal [0] with which [sum] starts and lists are filled. *)
Class PyNum (A : Type) := {
  py_zero : A;
  py_add : A -> A -> A;
  py_mul : A -> A -> A;
  py_abs : A -> A;
  py_gtb : A -> A -> bool
}.

#[global] Instance Z_PyNum : PyNum Z := {|
  py_zero := 0;
  py_add := Z.add;
  py_mul := Z.mul;
  py_abs := Z.abs;
  py_gtb := Z.gtb
|}.

(** [sum(f(k) for k in range(n))]: starts from [0] and adds from the left. *)
Definition py_sum_range {A} `{PyNum A} (n : nat) (f : nat -> py A) : py A :=
  for_range n (fun k acc => v ← f k; mret (py_add acc v)) py_zero.

(** [sum(l)]. *)
Definition py_sum {A} `{PyNum A} (l : list A) : A :=
  foldl py_add py_zero l.

(** Floats are compared exactly. *)
Definition Rgtb (x y : R) : bool := if Rgt_dec x y then true else false.

(** ** matrix_operations.py *)

Module MatrixOperations.

Section Ops.
Context {A : Type} `{PyNum A}.

Local Abbreviation matrix := (list (list A)).

(** [not matrix or not matrix[0]] *)
Definition is_empty (m : matrix) : bool :=
  match m with
  | [] => true
  | [] :: _ => true
  | _ => false
  end.

(** [t[j][i] = v] on a list of distinct row objects. *)
Definition set_entry (t : matrix) (j i : nat) (v : A) : py matrix :=
  row ← py_get t j;
  row' ← py_set row i v;
  py_set t j row'.

(** [l[j] += v], as in [column_sums[j] += abs(row[j])]: the old value is
    read before [v] is evaluated. *)
Definition add_at (l : list A) (j : nat) (v : py A) : py (list A) :=
  old ← py_get l j;
  x ← v;
  py_set l j (py_add old x).

Definition column_sums (m : matrix) : py (list A) :=
  if is_empty m then Return []
  else
    let cols := length (hd [] m) in
    let column_sums := replicate cols py_zero in
    for_each m (fun row column_sums =>
      for_range cols (fun j column_sums =>
        add_at column_sums j (x ← py_get row j; mret (py_abs x))) column_sums)
      column_sums.

Definition row_sums (m : matrix) : py (list A) :=
  if is_empty m then Return []
  else
    let rows := length m in
    let row_sums := replicate rows py_zero in
    '(row_sums, _) ← for_each m (fun row '(row_sums, counter) =>
        row_sums' ← add_at row_sums counter (Return (py_sum (py_abs <$> row)));
        mret (row_sums', S counter))
      (row_sums, 0%nat);
    mret row_sums.

Definition transpose (m : matrix) : py matrix :=
  if is_empty m then Return []
  else
    let number_of_rows := length m in
    let number_of_columns := length (hd [] m) in
    let transposed_matrix :=
      replicate number_of_columns (replicate number_of_rows py_zero) in
    for_range number_of_rows (fun i transposed_matrix =>
      for_range number_of_columns (fun j transposed_matrix =>
        row ← py_get m i;
        v ← py_get row j;
        set_entry transposed_matrix j i v) transposed_matrix)
      transposed_matrix.

Definition matrix_multiply (matrix1 matrix2 : matrix) : py matrix :=
  match matrix1, matrix2 with
  | [], _ | _, [] => Return []
  | row1 :: _, row2 :: _ =>
    let matrix1_rows := length matrix1 in
    let matrix1_cols := length row1 in
    let matrix2_rows := length matrix2 in
    let matrix2_cols := length row2 in
    if negb (matrix1_cols =? matrix2_rows)%nat then Return []
    else
      let result_matrix :=
        replicate matrix1_rows (replicate matrix2_cols py_zero) in
      for_range matrix1_rows (fun i result_matrix =>
        for_range matrix2_cols (fun j result_matrix =>
          s ← py_sum_range matrix1_cols (fun k =>
                 r1 ← py_get matrix1 i;
                 a ← py_get r1 k;
                 r2 ← py_get matrix2 k;
                 b ← py_get r2 j;
                 mret (py_mul a b));
          set_entry result_matrix i j s) result_matrix)
        result_matrix
  end.

(** The [shape] of [np.array(matrix)] for a list of lists of numbers: a
    list with no row is a one-dimensional array of length 0, rows of one
    length [c] give a two-dimensional array, and rows of different lengths
    are refused by [np.array] (numpy 1.24 and later). *)
Definition np_shape (m : matrix) : py (list nat) :=
  match m with
  | [] => Return [0%nat]
  | row :: rows =>
    if forallb (fun r => length r =? length row)%nat rows
    then Return [length m; length row]
    else Raise NumpyError
  end.

Section Eigen.
(** [np.linalg.eigvals(matrix_np).tolist()], the routine numpy supplies:
    [None] when it raises.  [E] is the type of the scalars it returns
    (Python floats or complex numbers). *)
Variable E : Type.
Variable eigvals : matrix -> option (list E).

Definition compute_eigenvalues (m : matrix) : py (list E) :=
  shape ← np_shape m;
  rows ← py_get shape 0;
  cols ← py_get shape 1;
  if negb (rows =? cols)%nat then Raise ShapeError
  else
    match eigvals m with
    | Some eigenvalues => Return eigenvalues
    | None => Raise NumpyError
    end.

End Eigen.

End Ops.

End MatrixOperations.

(** ** matrix_norms.py *)

Module MatrixNorms.
Import MatrixOperations.

Section Norms.
Context {A : Type} `{PyNum A}.
(** [float(x)] of a matrix entry. *)
Variable py_float : A -> py R.
(** The eigenvalue routine, see [compute_eigenvalues]. *)
Variable E : Type.
Variable eigvals : list (list A) -> option (list E).
(** [abs(x)] of an eigenvalue, a float. *)
Variable abs_eig : E -> R.
(** [x ** 0.5] on floats. *)
Variable pow_half : R -> R.

Local Abbreviation matrix := (list (list A)).

Definition one_norm (m : matrix) : py R :=
  matrix_column_sums ← column_sums m;
  x ← py_max py_gtb matrix_column_sums;
  py_float x.

Definition infinity_norm (m : matrix) : py R :=
  matrix_row_sums ← row_sums m;
  x ← py_max py_gtb matrix_row_sums;
  py_float x.

(** [abs(element) for row in matrix for element in row] is the list of the
    absolute values in row order. *)
Definition max_norm (m : matrix) : py R :=
  x ← py_max py_gtb (py_abs <$> concat m);
  py_float x.

(** [max(abs(x) for x in eigenvalues) ** 0.5], the last line of [two_norm]. *)
Definition spectral_formula (eigenvalues : list E) : py R :=
  x ← py_max Rgtb (abs_eig <$> eigenvalues);
  mret (pow_half x).

Definition two_norm (m : matrix) : py R :=
  transposed_matrix ← transpose m;
  matrix_product ← matrix_multiply transposed_matrix m;
  eigenvalues ← compute_eigenvalues E eigvals matrix_product;
  spectral_formula eigenvalues.

End Norms.

End MatrixNorms.

Import MatrixOperations MatrixNorms.

(** ** Vocabulary of the statements *)

(** [m[i][j]], when both indices are in range. *)
Definition entry {A} (m : list (list A)) (i j : nat) : option A :=
  row ← m !! i; row !! j.

(** [r] rows, each of length [c]. *)
Definition has_shape {A} (r c : nat) (m : list (list A)) : Prop :=
  length m = r /\ Forall (fun row => length row = c) m.

(** The invariant of the data model: all rows are as long as the first. *)
Definition rectangular {A} (m : list (list A)) : Prop :=
  Forall (fun row => length row = length (hd [] m)) m.

(** [m[i][j]] with [0] outside the matrix, to write sums with. *)
Definition entry0 {A} `{PyNum A} (m : list (list A)) (i j : nat) : A :=
  default py_zero (entry m i j).

(** [sum(m1[i][k] * m2[k][j] for k in range(n))], added from the left
    starting from [0]. *)
Definition dot {A} `{PyNum A} (m1 m2 : list (list A)) (i j n : nat) : A :=
  py_sum ((fun k => py_mul (entry0 m1 i k) (entry0 m2 k j)) <$> seq 0 n).

Section SpecPipeline.
Context {A : Type} `{PyNum A}.
Variable E : Type.
Variable eigvals : list (list A) -> option (list E).
Variable abs_eig : E -> R.
Variable pow_half : R -> R.

(** The data flow of the two-norm in the words of the specification, each
    stage a function of its own: input matrix, transpose, multiply
    (transpose times original, the Gram matrix), eigenvalue extraction, max
    absolute eigenvalue, square root, scalar result. *)
Definition spec_gram (m : list (list A)) : py (list (list A)) :=
  transpose m ≫= (fun t => matrix_multiply t m).

Definition spec_max_abs_eigenvalue (ev : list E) : py R :=
  py_max Rgtb (abs_eig <$> ev).

Definition spec_square_root (x : R) : py R := Return (pow_half x).

Definition spec_two_norm (m : list (list A)) : py R :=
  ((spec_gram m ≫= compute_eigenvalues E eigvals)
               ≫= spec_max_abs_eigenvalue)
               ≫= spec_square_root.

End SpecPipeline.

(** The characteristic polynomial [det(g - x I)] of a 2 by 2 integer
    matrix. *)
Definition char_poly2 (g : list (list Z)) (x : R) : R :=
  ((IZR (entry0 g 0 0) - x) * (IZR (entry0 g 1 1) - x)
   - IZR (entry0 g 0 1) * IZR (entry0 g 1 0))%R.

(** [e1] and [e2] are the eigenvalues of [g], with multiplicity: the
    characteristic polynomial is [(x - e1)(x - e2)]. *)
Definition exact_eigenvalues2 (g : list (list Z)) (e1 e2 : R) : Prop :=
  forall x : R, char_poly2 g x = ((x - e1) * (x - e2))%R.

(** The shape of a matrix that is written out. *)
Ltac concrete_shape := split; [reflexivity | repeat constructor].

(** ** The rest of the two source files *)

(** [frobenius_norm] of [matrix_norms.py] on integer matrices:
    [sum(element ** 2 for row in matrix for element in row) ** 0.5].  On
    integers [element ** 2] and the sum are exact; [int_pow_half] is
    [n ** 0.5] of an integer [n], which converts [n] to a float first
    (and raises when it is too large). *)
Definition frobenius_norm (int_pow_half : Z -> py R) (m : list (list Z))
    : py R :=
  int_pow_half (py_sum ((fun element => element ^ 2) <$> concat m)).

(** Subtraction of entries, which [previous_difference_norm] needs beside
    the operations of [PyNum]. *)
Class PySub (A : Type) := py_sub : A -> A -> A.

#[global] Instance Z_PySub : PySub Z := Z.sub.

(** [vector_norms.py].  [p_norm] and the [two_norm] built on it raise
    floats to float powers and are left out. *)
Module VectorNorms.

Section Norms.
Context {A : Type} `{PyNum A} `{PySub A}.
(** [float(x)] of an entry. *)
Variable py_float : A -> py R.

Definition one_norm (vector : list A) : py R :=
  py_float (py_sum (py_abs <$> vector)).

Definition max_norm (vector : list A) : py R :=
  x ← py_max py_gtb (py_abs <$> vector);
  py_float x.

Definition previous_difference_norm (vector : list A) : py R :=
  match vector with
  | [] => Return 0%R
  | _ :: _ =>
    first ← py_get vector 0;
    norm_value ← for_each (seq 1 (length vector - 1))
      (fun i norm_value =>
         x ← py_get vector i;
         y ← py_get vector (i - 1);
         mret (py_add norm_value (py_abs (py_sub x y))))
      (py_abs first);
    py_float norm_value
  end.

End Norms.

End VectorNorms.

(** ** Vocabulary of the further statements *)

(** [|row[0]| + |row[1]| + ...] as [row_sums] accumulates it: the sum of
    the generator added to the [0] the list was filled with. *)
Definition row_abs_sum {A} `{PyNum A} (row : list A) : A :=
  py_add py_zero (py_sum (py_abs <$> row)).

(** [|m[0][j]| + |m[1][j]| + ...], added from the left starting from [0]. *)
Definition col_abs_sum {A} `{PyNum A} (m : list (list A)) (j : nat) : A :=
  py_sum ((fun row => py_abs (default py_zero (row !! j))) <$> m).

(** [|x1 - prev| + |x2 - x1| + ...] over the list [x1, x2, ...]. *)
Fixpoint diff_sum (prev : Z) (l : list Z) : Z :=
  match l with
  | [] => 0
  | x :: l' => Z.abs (x - prev) + diff_sum x l'
  end.

(** [|x1| + |x2 - x1| + ... + |xn - x(n-1)|], and [0] for no element. *)
Definition pd_value (v : list Z) : Z :=
  match v with
  | [] => 0
  | x :: l => Z.abs x + diff_sum x l
  end.

(** The sum of the squares of all entries. *)
Definition square_sum (m : list (list Z)) : Z :=
  foldr Z.add 0 ((fun element => element ^ 2) <$> concat m).

(** [t] is [m], an [r] by [c] matrix, with rows and columns exchanged. *)
Definition transposed_of {A} (r c : nat) (m t : list (list A)) : Prop :=
  has_shape r c m /\ has_shape c r t /\
  forall i j, (i < r)%nat -> (j < c)%nat -> entry t j i = entry m i j.

(** Reading [m1[i][k]] or [m2[k][j]] falls outside a row. *)
Definition outside {A} (m1 m2 : list (list A)) (i j k : nat) : Prop :=
  (exists r1, m1 !! i = Some r1 /\ (length r1 <= k)%nat) \/
  (exists r2, m2 !! k = Some r2 /\ (length r2 <= j)%nat).




(** * Part II: theorems *)

(** ** The source's examples *)

Example transpose_2x3 :
  transpose [[1; 2; 3]; [4; 5; 6]] = Return [[1; 4]; [2; 5]; [3; 6]].
Proof. reflexivity. Qed.

Example multiply_2x2 :
  matrix_multiply [[1; 2]; [3; 4]] [[5; 6]; [7; 8]] = Return [[19; 22]; [43; 50]].
Proof. reflexivity. Qed.

Example column_sums_ex :
  column_sums [[1; -2; 3]; [-4; 5; -6]] = Return [5; 7; 9].
Proof. reflexivity. Qed.

Example row_sums_ex :
  row_sums [[1; -2; 3]; [-4; 5; -6]] = Return [6; 15].
Proof. reflexivity. Qed.

(** The doctests of [one_norm] and [max_norm], with [float] exact on these
    small integers. *)
Example one_norm_doctest :
  one_norm (fun x => Return (IZR x)) [[1; -2; 3]; [-4; 5; -6]] = Return 9%R /\
  one_norm (fun x => Return (IZR x)) [[1; 2]; [3; 4]; [5; 6]] = Return 12%R.
Proof. split; reflexivity. Qed.

Example max_norm_doctest :
  max_norm (fun x => Return (IZR x)) [[1; -5; 3]; [2; 4; -6]] = Return 6%R /\
  max_norm (fun x => Return (IZR x)) [[0; 0]; [0; 0]] = Return 0%R.
Proof. split; reflexivity. Qed.

(** ** Reasoning principles for the runtime *)

Lemma bind_Return {T U} (x : T) (f : T -> py U) : (Return x ≫= f) = f x.
Proof. reflexivity. Qed.

Lemma py_get_lookup {T} (l : list T) i x :
  l !! i = Some x -> py_get l i = Return x.
Proof. unfold py_get. by intros ->. Qed.

Lemma py_set_lt {T} (l : list T) i v :
  (i < length l)%nat -> py_set l i v = Return (<[i := v]> l).
Proof.
  intros Hi. unfold py_set.
  by destruct (Nat.ltb_spec i (length l)); [|lia].
Qed.

(** A loop over a list establishes [P (length xs)] from [P 0] when every
    iteration returns and moves the invariant one step. *)
Lemma for_each_inv {T St} (P : nat -> St -> Prop) (xs : list T) body s0 :
  P 0%nat s0 ->
  (forall k x s, xs !! k = Some x -> P k s ->
     exists s', body x s = Return s' /\ P (S k) s') ->
  exists s', for_each xs body s0 = Return s' /\ P (length xs) s'.
Proof.
  revert P s0. induction xs as [|x xs IH]; intros P s0 H0 Hstep.
  - by exists s0.
  - destruct (Hstep 0%nat x s0 eq_refl H0) as (s1 & Hb & H1).
    destruct (IH (fun k => P (S k)) s1 H1) as (s' & Hs' & HP).
    + intros k y s Hk HPk. by apply (Hstep (S k)).
    + exists s'. simpl. rewrite Hb. done.
Qed.

Lemma for_range_inv {St} (P : nat -> St -> Prop) n body s0 :
  P 0%nat s0 ->
  (forall k s, (k < n)%nat -> P k s ->
     exists s', body k s = Return s' /\ P (S k) s') ->
  exists s', for_range n body s0 = Return s' /\ P n s'.
Proof.
  intros H0 Hstep. unfold for_range.
  destruct (for_each_inv P (seq 0 n) body s0 H0) as (s' & Hs' & HP).
  - intros k x s Hk HPk. apply lookup_seq in Hk as [-> Hk].
    by apply Hstep.
  - exists s'. by rewrite length_seq in HP.
Qed.

(** [sum] over a generator whose terms all evaluate. *)
Lemma py_sum_range_ok {A} `{PyNum A} n (f : nat -> py A) (g : nat -> A) :
  (forall k, (k < n)%nat -> f k = Return (g k)) ->
  py_sum_range n f = Return (py_sum (g <$> seq 0 n)).
Proof.
  intros Hf. unfold py_sum_range.
  destruct (for_range_inv
    (fun k acc => acc = py_sum (g <$> seq 0 k)) n
    (fun k acc => v ← f k; mret (py_add acc v)) py_zero) as (s & Hs & ->);
    [done| |done].
  intros k acc Hk ->. rewrite (Hf k Hk). eexists; split; [done|].
  rewrite seq_S, fmap_app. unfold py_sum. by rewrite foldl_app.
Qed.

(** ** Shapes and entries *)

Section Shapes.
Context {A : Type}.
Implicit Types m t : list (list A).

Lemma rectangular_has_shape m :
  rectangular m -> has_shape (length m) (length (hd [] m)) m.
Proof. by split. Qed.

Lemma has_shape_hd r c m :
  has_shape r c m -> (0 < r)%nat -> length (hd [] m) = c.
Proof.
  intros [Hlen Hrows] Hr. destruct m as [|row0 m]; simpl in *; [lia|].
  by apply Forall_inv in Hrows.
Qed.

Lemma has_shape_row r c m i row :
  has_shape r c m -> m !! i = Some row -> length row = c.
Proof. intros [_ Hrows] Hi. exact (Forall_lookup_1 _ _ _ _ Hrows Hi). Qed.

Lemma has_shape_entry r c m i j :
  has_shape r c m -> (i < r)%nat -> (j < c)%nat ->
  exists row x, m !! i = Some row /\ row !! j = Some x /\ entry m i j = Some x.
Proof.
  intros Hm Hi Hj.
  destruct (lookup_lt_is_Some_2 m i) as [row Hrow]; [destruct Hm; lia|].
  pose proof (has_shape_row _ _ _ _ _ Hm Hrow) as Hlen.
  destruct (lookup_lt_is_Some_2 row j) as [x Hx]; [lia|].
  exists row, x. unfold entry. rewrite Hrow. simpl. done.
Qed.

Lemma has_shape_replicate r c (x : A) :
  has_shape r c (replicate r (replicate c x)).
Proof.
  split; [by rewrite length_replicate|].
  apply Forall_replicate. by rewrite length_replicate.
Qed.

(** Two matrices of one shape with the same entries are equal. *)
Lemma matrix_ext r c m t :
  has_shape r c m -> has_shape r c t ->
  (forall i j, (i < r)%nat -> (j < c)%nat -> entry m i j = entry t i j) ->
  m = t.
Proof.
  intros Hm Ht Hent. apply list_eq. intros i.
  destruct (decide (i < r)%nat) as [Hi|Hi].
  - destruct (lookup_lt_is_Some_2 m i) as [row1 H1]; [destruct Hm; lia|].
    destruct (lookup_lt_is_Some_2 t i) as [row2 H2]; [destruct Ht; lia|].
    rewrite H1, H2. f_equal. apply list_eq. intros j.
    pose proof (has_shape_row _ _ _ _ _ Hm H1) as L1.
    pose proof (has_shape_row _ _ _ _ _ Ht H2) as L2.
    destruct (decide (j < c)%nat) as [Hj|Hj].
    + specialize (Hent i j Hi Hj). unfold entry in Hent.
      rewrite H1, H2 in Hent. done.
    + rewrite !lookup_ge_None_2 by lia. done.
  - destruct Hm, Ht. rewrite !lookup_ge_None_2 by lia. done.
Qed.

(** The assignment [t[j][i] = v] inside the shape: it returns, keeps the
    shape, writes the entry and leaves the others. *)
Lemma set_entry_spec r c t j i v :
  has_shape r c t -> (j < r)%nat -> (i < c)%nat ->
  exists t', MatrixOperations.set_entry t j i v = Return t' /\
    has_shape r c t' /\
    entry t' j i = Some v /\
    (forall j' i', (j', i') <> (j, i) -> entry t' j' i' = entry t j' i').
Proof.
  intros Ht Hj Hi.
  destruct (has_shape_entry _ _ _ _ _ Ht Hj Hi) as (row & x & Hrow & Hx & _).
  pose proof (has_shape_row _ _ _ _ _ Ht Hrow) as Hlen.
  exists (<[j := <[i := v]> row]> t).
  unfold MatrixOperations.set_entry.
  rewrite (py_get_lookup _ _ _ Hrow). simpl.
  rewrite py_set_lt by lia. simpl.
  destruct Ht as [Hr Hrows].
  rewrite py_set_lt by lia.
  split; [done|]. split; [|split].
  - split; [by rewrite length_insert|].
    apply Forall_insert; [done|]. by rewrite length_insert.
  - unfold entry. rewrite list_lookup_insert_eq by lia. simpl.
    by rewrite list_lookup_insert_eq by lia.
  - intros j' i' Hne. unfold entry.
    destruct (decide (j' = j)) as [->|Hjj].
    + rewrite list_lookup_insert_eq by lia. rewrite Hrow. simpl.
      apply list_lookup_insert_ne. congruence.
    + by rewrite list_lookup_insert_ne.
Qed.

End Shapes.

(** ** transpose *)

Section TransposeFacts.
Context {A : Type} `{PyNum A}.
Implicit Types m t : list (list A).

Lemma is_empty_true m : is_empty m = true <-> m = [] \/ hd [] m = [].
Proof.
  destruct m as [|[|x row0] m]; simpl; split; intros; try done; auto.
  by destruct H0.
Qed.

Lemma is_empty_shape r c m :
  has_shape r c m -> (0 < r)%nat -> (0 < c)%nat -> is_empty m = false.
Proof.
  intros Hm Hr Hc. pose proof (has_shape_hd _ _ _ Hm Hr) as Hhd.
  destruct Hm as [Hlen _].
  destruct m as [|[|x row0] m]; simpl in *; try done; lia.
Qed.

(** On an [r] by [c] matrix the two loops of [transpose] run to the end and
    fill a [c] by [r] matrix with [t[j][i] = m[i][j]]. *)
Lemma transpose_spec r c m :
  has_shape r c m -> (0 < r)%nat -> (0 < c)%nat ->
  exists t, transpose m = Return t /\ has_shape c r t /\
    (forall i j, (i < r)%nat -> (j < c)%nat -> entry t j i = entry m i j).
Proof.
  intros Hm Hr Hc. unfold transpose.
  rewrite (is_empty_shape _ _ _ Hm Hr Hc).
  rewrite (has_shape_hd _ _ _ Hm Hr). rewrite (proj1 Hm).
  apply (for_range_inv (fun i t => has_shape c r t /\
    forall i' j, (i' < i)%nat -> (j < c)%nat -> entry t j i' = entry m i' j)).
  { split; [apply has_shape_replicate | intros; lia]. }
  intros i t Hi [Ht Hdone].
  destruct (for_range_inv (fun j t' => has_shape c r t' /\
      (forall i' j', (i' < i)%nat -> (j' < c)%nat ->
         entry t' j' i' = entry m i' j') /\
      (forall j', (j' < j)%nat -> entry t' j' i = entry m i j'))
    c (fun j t' => row ← py_get m i; v ← py_get row j;
                   MatrixOperations.set_entry t' j i v) t)
    as (t' & Hrun & HP); [| |destruct HP as (Ht' & Hold & Hnew)].
  { split; [done|]. split; [done | intros; lia]. }
  { intros j t0 Hj (Ht0 & Hold & Hnew).
    destruct (has_shape_entry _ _ _ _ _ Hm Hi Hj) as (row & x & Hrow & Hx & Hent).
    rewrite (py_get_lookup _ _ _ Hrow). simpl.
    rewrite (py_get_lookup _ _ _ Hx). simpl.
    destruct (set_entry_spec _ _ _ j i x Ht0 Hj Hi) as (t1 & Hset & Ht1 & Hwr & Hfr).
    exists t1. split; [done|]. split; [done|]. split.
    - intros i' j' Hi' Hj'. rewrite Hfr; [by apply Hold|].
      intros [= ? ?]. lia.
    - intros j' Hj'. destruct (decide (j' = j)) as [->|Hne].
      + by rewrite Hwr, Hent.
      + rewrite Hfr; [apply Hnew; lia | congruence]. }
  exists t'. split; [done|]. split; [done|].
  intros i' j Hi' Hj. destruct (decide (i' = i)) as [->|Hne].
  - by apply Hnew.
  - apply Hold; lia.
Qed.

(** The guard at the top of [transpose]. *)
Lemma transpose_empty m : is_empty m = true -> transpose m = Return [].
Proof. intros Hm. unfold transpose. by rewrite Hm. Qed.

End TransposeFacts.

(** ** matrix_multiply *)

Section MultiplyFacts.
Context {A : Type} `{PyNum A}.
Implicit Types m t : list (list A).

(** The two guards at the top of [matrix_multiply] and what follows them. *)
Lemma matrix_multiply_unfold m1 m2 :
  m1 <> [] -> m2 <> [] ->
  matrix_multiply m1 m2 =
    if negb (length (hd [] m1) =? length m2)%nat then Return []
    else
      for_range (length m1) (fun i result_matrix =>
        for_range (length (hd [] m2)) (fun j result_matrix =>
          s ← py_sum_range (length (hd [] m1)) (fun k =>
                 r1 ← py_get m1 i;
                 a ← py_get r1 k;
                 r2 ← py_get m2 k;
                 b ← py_get r2 j;
                 mret (py_mul a b));
          MatrixOperations.set_entry result_matrix i j s) result_matrix)
        (replicate (length m1) (replicate (length (hd [] m2)) py_zero)).
Proof. by destruct m1, m2. Qed.

Lemma matrix_multiply_no_rows m1 m2 :
  m1 = [] \/ m2 = [] -> matrix_multiply m1 m2 = Return [].
Proof. intros [-> | ->]; [done | by destruct m1]. Qed.

Lemma matrix_multiply_mismatch m1 m2 :
  length (hd [] m1) <> length m2 -> matrix_multiply m1 m2 = Return [].
Proof.
  intros Hne. destruct m1 as [|row1 m1]; [done|].
  destruct m2 as [|row2 m2]; [done|].
  rewrite matrix_multiply_unfold by done.
  by destruct (Nat.eqb_spec (length (hd [] (row1 :: m1))) (length (row2 :: m2))).
Qed.

(** With matching inner dimensions the loops run to the end and fill an
    [r1] by [c2] matrix with the row-by-column sums. *)
Lemma matrix_multiply_spec r1 c1 c2 m1 m2 :
  has_shape r1 c1 m1 -> has_shape c1 c2 m2 ->
  (0 < r1)%nat -> (0 < c1)%nat ->
  exists out, matrix_multiply m1 m2 = Return out /\ has_shape r1 c2 out /\
    (forall i j, (i < r1)%nat -> (j < c2)%nat ->
       entry out i j = Some (dot m1 m2 i j c1)).
Proof.
  intros Hm1 Hm2 Hr1 Hc1.
  rewrite matrix_multiply_unfold;
    [| destruct Hm1 as [L _]; intros ->; simpl in L; lia
     | destruct Hm2 as [L _]; intros ->; simpl in L; lia].
  rewrite (has_shape_hd _ _ _ Hm1 Hr1), (has_shape_hd _ _ _ Hm2 Hc1).
  rewrite (proj1 Hm1), (proj1 Hm2), Nat.eqb_refl. simpl.
  apply (for_range_inv (fun i res => has_shape r1 c2 res /\
    forall i' j, (i' < i)%nat -> (j < c2)%nat ->
      entry res i' j = Some (dot m1 m2 i' j c1))).
  { split; [apply has_shape_replicate | intros; lia]. }
  intros i res Hi [Hres Hdone].
  destruct (for_range_inv (fun j res' => has_shape r1 c2 res' /\
      (forall i' j', (i' < i)%nat -> (j' < c2)%nat ->
         entry res' i' j' = Some (dot m1 m2 i' j' c1)) /\
      (forall j', (j' < j)%nat -> entry res' i j' = Some (dot m1 m2 i j' c1)))
    c2 (fun j res' =>
          s ← py_sum_range c1 (fun k =>
                 r1 ← py_get m1 i;
                 a ← py_get r1 k;
                 r2 ← py_get m2 k;
                 b ← py_get r2 j;
                 mret (py_mul a b));
          MatrixOperations.set_entry res' i j s) res)
    as (res' & Hrun & HP); [| |destruct HP as (Hres' & Hold & Hnew)].
  { split; [done|]. split; [done | intros; lia]. }
  { intros j res0 Hj (Hres0 & Hold & Hnew).
    rewrite (py_sum_range_ok c1 _
      (fun k => py_mul (entry0 m1 i k) (entry0 m2 k j))).
    2:{ intros k Hk.
        destruct (has_shape_entry _ _ _ _ _ Hm1 Hi Hk) as (ra & a & Hra & Ha & Hea).
        destruct (has_shape_entry _ _ _ _ _ Hm2 Hk Hj) as (rb & b & Hrb & Hb & Heb).
        rewrite (py_get_lookup _ _ _ Hra). simpl.
        rewrite (py_get_lookup _ _ _ Ha). simpl.
        rewrite (py_get_lookup _ _ _ Hrb). simpl.
        rewrite (py_get_lookup _ _ _ Hb). simpl.
        unfold entry0. by rewrite Hea, Heb. }
    simpl. fold (dot m1 m2 i j c1).
    destruct (set_entry_spec _ _ _ i j (dot m1 m2 i j c1) Hres0 Hi Hj)
      as (res1 & Hset & Hres1 & Hwr & Hfr).
    exists res1. split; [done|]. split; [done|]. split.
    - intros i' j' Hi' Hj'. rewrite Hfr; [by apply Hold|].
      intros [= ? ?]. lia.
    - intros j' Hj'. destruct (decide (j' = j)) as [->|Hne].
      + done.
      + rewrite Hfr; [apply Hnew; lia | congruence]. }
  exists res'. split; [done|]. split; [done|].
  intros i' j Hi' Hj. destruct (decide (i' = i)) as [->|Hne].
  - by apply Hnew.
  - apply Hold; lia.
Qed.

End MultiplyFacts.

(** ** compute_eigenvalues *)

Section EigenFacts.
Context {A : Type} `{PyNum A}.
Variable E : Type.
Variable eigvals : list (list A) -> option (list E).
Implicit Types m : list (list A).

Lemma np_shape_rect r c m :
  has_shape r c m -> (0 < r)%nat -> np_shape m = Return [r; c].
Proof.
  intros [Hlen Hrows] Hr. destruct m as [|row0 m]; simpl in *; [lia|].
  apply Forall_cons in Hrows as [H0 Hrows].
  replace (forallb (fun r0 => length r0 =? length row0)%nat m) with true.
  - by rewrite Hlen, H0.
  - symmetry. apply forallb_forall. intros row Hin.
    apply Nat.eqb_eq. rewrite H0.
    rewrite Forall_forall in Hrows. apply Hrows. by apply list_elem_of_In.
Qed.

(** On a matrix with at least one row the squareness test sees the row and
    column counts; what it lets through goes to the eigenvalue routine. *)
Lemma compute_eigenvalues_rect r c m :
  has_shape r c m -> (0 < r)%nat ->
  compute_eigenvalues E eigvals m =
    if (r =? c)%nat then
      match eigvals m with
      | Some eigenvalues => Return eigenvalues
      | None => Raise NumpyError
      end
    else Raise ShapeError.
Proof.
  intros Hm Hr. unfold compute_eigenvalues.
  rewrite (np_shape_rect _ _ _ Hm Hr). simpl.
  by destruct (r =? c)%nat.
Qed.

Lemma compute_eigenvalues_shape_error r c m :
  has_shape r c m -> (0 < r)%nat ->
  compute_eigenvalues E eigvals m = Raise ShapeError <-> r <> c.
Proof.
  intros Hm Hr. rewrite (compute_eigenvalues_rect _ _ _ Hm Hr).
  destruct (Nat.eqb_spec r c) as [->|Hne].
  - split; [|done]. by destruct (eigvals m).
  - done.
Qed.

End EigenFacts.

(** ** The contracts of transpose and matrix_multiply *)

Lemma has_shape_zero_cols {A} (r : nat) (m : list (list A)) :
  has_shape r 0 m -> m = replicate r [].
Proof.
  intros [<- Hrows]. induction m as [|row m IH]; [done|].
  apply Forall_cons in Hrows as [H0 Hrows]. simpl.
  destruct row; [|done]. by rewrite <- IH.
Qed.

(** C9: [transpose] returns the empty matrix [[]] when its input has no
    rows or a first row of length zero, whatever the other rows are; on an
    [r] by [c] matrix with [r >= 1] and [c >= 1] it returns a [c] by [r]
    matrix [t] with [t[j][i] = m[i][j]] for all [i < r] and [j < c]; and
    [transpose([[1,2,3],[4,5,6]]) == [[1,4],[2,5],[3,6]]]. *)
Theorem transpose_contract {A : Type} `{PyNum A} (m : list (list A)) :
  (m = [] \/ hd [] m = [] -> transpose m = Return []) /\
  (forall r c, has_shape r c m -> (1 <= r)%nat -> (1 <= c)%nat ->
     exists t, transpose m = Return t /\ has_shape c r t /\
       forall i j, (i < r)%nat -> (j < c)%nat ->
         exists x, entry m i j = Some x /\ entry t j i = Some x) /\
  transpose [[1; 2; 3]; [4; 5; 6]] = Return [[1; 4]; [2; 5]; [3; 6]].
Proof.
  split; [|split].
  - intros Hm. apply transpose_empty. by apply is_empty_true.
  - intros r c Hm Hr Hc.
    destruct (transpose_spec r c m Hm) as (t & Ht & Hshape & Hent); [lia..|].
    exists t. split; [done|]. split; [done|].
    intros i j Hi Hj.
    destruct (has_shape_entry _ _ _ _ _ Hm Hi Hj) as (row & x & _ & _ & Hx).
    exists x. split; [done|]. by rewrite Hent.
  - reflexivity.
Qed.

Lemma transpose_contract_witness :
  transpose [[]; [7; 8]] = Return [] /\
  exists t, transpose [[1; 2]; [3; 4]; [5; 6]] = Return t /\
    has_shape 2 3 t /\
    forall i j, (i < 3)%nat -> (j < 2)%nat ->
      exists x, entry [[1; 2]; [3; 4]; [5; 6]] i j = Some x /\
                entry t j i = Some x.
Proof.
  split.
  - apply (proj1 (transpose_contract [[]; [7; 8]])). right. reflexivity.
  - apply (proj1 (proj2 (transpose_contract [[1; 2]; [3; 4]; [5; 6]])) 3%nat 2%nat).
    + concrete_shape.
    + lia.
    + lia.
Defined.

(** C7, as amended: for every rectangular matrix that has no rows, or
    whose rows have at least one element, [transpose(transpose(A)) == A];
    for a matrix of one or more rows of length zero the result is the
    empty matrix [[]], which is not [A]. *)
Theorem transpose_involutive {A : Type} `{PyNum A} (m : list (list A)) :
  rectangular m ->
  (m = [] \/ hd [] m <> [] -> (t ← transpose m; transpose t) = Return m) /\
  (m <> [] /\ hd [] m = [] ->
     (t ← transpose m; transpose t) = Return [] /\
     (t ← transpose m; transpose t) <> Return m).
Proof.
  intros Hrect. split.
  - intros [-> | Hcols]; [done|].
    pose proof (rectangular_has_shape _ Hrect) as Hm.
    assert (0 < length m)%nat as Hr by (destruct m; [done | simpl; lia]).
    assert (0 < length (hd [] m))%nat as Hc
      by (destruct (hd [] m); [done | simpl; lia]).
    destruct (transpose_spec _ _ m Hm Hr Hc) as (t & Ht & Hshape & Hent).
    destruct (transpose_spec _ _ t Hshape Hc Hr) as (u & Hu & Hushape & Huent).
    rewrite Ht. simpl. rewrite Hu. f_equal.
    apply (matrix_ext _ _ _ _ Hushape Hm).
    intros i j Hi Hj. rewrite Huent by done. by apply Hent.
  - intros [Hne Hhd].
    rewrite transpose_empty by (apply is_empty_true; by right).
    split; [done|]. intros [= <-]. by apply Hne.
Qed.

Lemma transpose_involutive_witness :
  (t ← transpose [[1; 2; 3]; [4; 5; 6]]; transpose t)
    = Return [[1; 2; 3]; [4; 5; 6]] /\
  (t ← transpose [[]; []]; transpose t) = Return ([] : list (list Z)) /\
  (t ← transpose [[]; []]; transpose t) <> Return ([[]; []] : list (list Z)).
Proof.
  split.
  - apply (proj1 (transpose_involutive [[1; 2; 3]; [4; 5; 6]]
                    ltac:(repeat constructor))).
    right. discriminate.
  - apply (proj2 (transpose_involutive ([[]; []] : list (list Z))
                    ltac:(repeat constructor))).
    split; [discriminate | reflexivity].
Defined.

(** C7 as stated fails on a rectangular matrix whose rows all have length
    zero: [transpose([[]])] is [[]], and so is its transpose. *)
Lemma transpose_involutive_counterexample :
  rectangular ([[]] : list (list Z)) /\
  (t ← transpose ([[]] : list (list Z)); transpose t) = Return [] /\
  Return ([] : list (list Z)) <> Return [[]].
Proof. split; [repeat constructor | split; [reflexivity | discriminate]]. Qed.

(** On integers the left-to-right [sum] is the usual sum. *)
Lemma py_sum_Z (l : list Z) : py_sum l = foldr Z.add 0 l.
Proof.
  unfold py_sum. simpl.
  assert (forall a, foldl Z.add a l = a + foldr Z.add 0 l) as Hgen.
  { induction l as [|x l IH]; intros a; simpl; [lia|]. rewrite IH. lia. }
  rewrite Hgen. lia.
Qed.

(** C8: for non-empty matrices [m1] ([r1] by [c1]) and [m2] ([r2] by [c2])
    with [c1 = r2], [matrix_multiply] returns an [r1] by [c2] matrix whose
    entry at row [i], column [j] is the sum over [k] of
    [m1[i][k] * m2[k][j]] (added from the left, which on integers is the
    sum in any order); and
    [matrix_multiply([[1,2],[3,4]], [[5,6],[7,8]]) == [[19,22],[43,50]]]. *)
Theorem matrix_multiply_contract {A : Type} `{PyNum A} :
  (forall r1 c1 r2 c2 (m1 m2 : list (list A)),
     has_shape r1 c1 m1 -> has_shape r2 c2 m2 ->
     (1 <= r1)%nat -> (1 <= c1)%nat -> (1 <= r2)%nat -> (1 <= c2)%nat ->
     c1 = r2 ->
     exists out, matrix_multiply m1 m2 = Return out /\ has_shape r1 c2 out /\
       forall i j, (i < r1)%nat -> (j < c2)%nat ->
         entry out i j = Some (dot m1 m2 i j c1)) /\
  (forall (m1 m2 : list (list Z)) i j n,
     dot m1 m2 i j n
       = foldr Z.add 0 ((fun k => entry0 m1 i k * entry0 m2 k j) <$> seq 0 n)) /\
  matrix_multiply [[1; 2]; [3; 4]] [[5; 6]; [7; 8]]
    = Return [[19; 22]; [43; 50]].
Proof.
  split; [|split; [|reflexivity]].
  - intros r1 c1 r2 c2 m1 m2 Hm1 Hm2 Hr1 Hc1 _ _ <-.
    apply matrix_multiply_spec; [done | done | lia | lia].
  - intros. apply py_sum_Z.
Qed.

Lemma matrix_multiply_contract_witness :
  exists out, matrix_multiply [[1; 0; 2]; [-1; 3; 1]] [[3; 1]; [2; 1]; [1; 0]]
                = Return out /\
    has_shape 2 2 out /\
    forall i j, (i < 2)%nat -> (j < 2)%nat ->
      entry out i j =
        Some (dot [[1; 0; 2]; [-1; 3; 1]] [[3; 1]; [2; 1]; [1; 0]] i j 3).
Proof.
  apply (proj1 matrix_multiply_contract 2%nat 3%nat 3%nat 2%nat).
  - concrete_shape.
  - concrete_shape.
  - lia.
  - lia.
  - lia.
  - lia.
  - reflexivity.
Defined.

(** C6, as amended: [matrix_multiply] returns the empty matrix [[]]
    whenever either input has no rows, or the first row of the first input
    has length zero, or the column count of the first input differs from
    the row count of the second.  When only the second input is empty in
    the sense of the data model (its [c1 >= 1] rows have length zero, and the
    first input is [r1] by [c1]) the result is [r1] rows of length zero,
    not [[]]. *)
Theorem matrix_multiply_empty {A : Type} `{PyNum A} (m1 m2 : list (list A)) :
  (m1 = [] \/ m2 = [] \/ hd [] m1 = [] \/ length (hd [] m1) <> length m2 ->
     matrix_multiply m1 m2 = Return []) /\
  (forall r1 c1, has_shape r1 c1 m1 -> has_shape c1 0 m2 ->
     (1 <= r1)%nat -> (1 <= c1)%nat ->
     matrix_multiply m1 m2 = Return (replicate r1 []) /\
     is_empty (replicate r1 ([] : list A)) = true /\
     replicate r1 ([] : list A) <> []).
Proof.
  split.
  - intros [Hm | [Hm | [Hm | Hm]]].
    + apply matrix_multiply_no_rows. by left.
    + apply matrix_multiply_no_rows. by right.
    + destruct m2 as [|row2 m2].
      * apply matrix_multiply_no_rows. by right.
      * apply matrix_multiply_mismatch. rewrite Hm. simpl. lia.
    + by apply matrix_multiply_mismatch.
  - intros r1 c1 Hm1 Hm2 Hr1 Hc1.
    destruct (matrix_multiply_spec r1 c1 0 m1 m2 Hm1 Hm2)
      as (out & Hout & Hshape & _); [lia..|].
    rewrite Hout, (has_shape_zero_cols _ _ Hshape).
    destruct r1; [lia|]. done.
Qed.

Lemma matrix_multiply_empty_witness :
  matrix_multiply [[1; 2]] [[3; 4]] = Return [] /\
  matrix_multiply [[1; 2]; [3; 4]] [[]; []] = Return [[]; []].
Proof.
  split.
  - apply (proj1 (matrix_multiply_empty [[1; 2]] [[3; 4]])).
    right. right. right. simpl. lia.
  - apply (proj2 (matrix_multiply_empty [[1; 2]; [3; 4]] [[]; []]) 2%nat 2%nat).
    + concrete_shape.
    + concrete_shape.
    + lia.
    + lia.
Defined.

(** C6 as stated fails when the second input is a matrix of zero-length
    rows: [matrix_multiply([[1]], [[]])] is [[[]]], one row of length zero,
    and not [[]]. *)
Lemma matrix_multiply_empty_counterexample :
  is_empty ([[]] : list (list Z)) = true /\
  matrix_multiply [[1]] [[]] = Return [[]] /\
  Return ([[]] : list (list Z)) <> Return [].
Proof. split; [reflexivity | split; [reflexivity | discriminate]]. Qed.

(** ** The norms on empty input *)

Section EmptyNorms.
Context {A : Type} `{PyNum A}.
Variable py_float : A -> py R.
Implicit Types m : list (list A).

Lemma column_sums_empty m : is_empty m = true -> column_sums m = Return [].
Proof. intros Hm. unfold column_sums. by rewrite Hm. Qed.

Lemma row_sums_empty m : is_empty m = true -> row_sums m = Return [].
Proof. intros Hm. unfold row_sums. by rewrite Hm. Qed.

Lemma one_norm_empty m :
  is_empty m = true -> one_norm py_float m = Raise EmptyMaxError.
Proof. intros Hm. unfold one_norm. by rewrite column_sums_empty. Qed.

Lemma infinity_norm_empty m :
  is_empty m = true -> infinity_norm py_float m = Raise EmptyMaxError.
Proof. intros Hm. unfold infinity_norm. by rewrite row_sums_empty. Qed.

(** An empty rectangular matrix has no element at all. *)
Lemma concat_empty_rectangular m :
  rectangular m -> is_empty m = true -> concat m = [].
Proof.
  intros Hrect Hm. apply is_empty_true in Hm as [-> | Hhd]; [done|].
  unfold rectangular in Hrect. rewrite Hhd in Hrect. simpl in Hrect.
  clear Hhd. induction m as [|row m IH]; [done|].
  apply Forall_cons in Hrect as [H0 Hrect]. simpl.
  destruct row; [|done]. by apply IH.
Qed.

Lemma max_norm_empty m :
  rectangular m -> is_empty m = true ->
  max_norm py_float m = Raise EmptyMaxError.
Proof.
  intros Hrect Hm. unfold max_norm.
  by rewrite (concat_empty_rectangular _ Hrect Hm).
Qed.

End EmptyNorms.

(** [one_norm] and [infinity_norm] only look at the first row before they
    fail; [max_norm] reads every row, so on a list whose first row is empty
    and whose other rows are not (not a matrix of the data model) it
    returns. *)
Example max_norm_ragged :
  one_norm (fun x => Return (IZR x)) [[]; [3; -4]] = Raise EmptyMaxError /\
  max_norm (fun x => Return (IZR x)) [[]; [3; -4]] = Return (IZR 4).
Proof. split; reflexivity. Qed.

Lemma concat_all_empty {A} (m : list (list A)) :
  Forall (fun row => row = []) m -> concat m = [].
Proof.
  induction 1 as [|row m Hrow Hm IH]; [done|]. simpl. by rewrite Hrow, IH.
Qed.

Lemma concat_some_row {A} (m : list (list A)) :
  Exists (fun row => row <> []) m -> concat m <> [].
Proof.
  induction 1 as [row m Hrow | row m Hm IH]; simpl.
  - destruct row; [done | discriminate].
  - intros Hnil. by apply app_eq_nil in Hnil as [_ Hnil].
Qed.

(** [max] returns one of the elements. *)
Lemma py_max_elem {T} (gtb : T -> T -> bool) (l : list T) :
  l <> [] -> exists x, py_max gtb l = Return x /\ x ∈ l.
Proof.
  destruct l as [|x0 l]; [done|]. intros _. eexists. split; [done|].
  revert x0. induction l as [|y l IH]; intros x0; simpl; [by left|].
  specialize (IH (if gtb y x0 then y else x0)).
  apply elem_of_cons in IH as [Heq | IH].
  - rewrite Heq. destruct (gtb y x0); [right; left | left].
  - right. by right.
Qed.

Lemma elem_of_concat_row {A} (x : A) (m : list (list A)) :
  x ∈ concat m -> exists row, row ∈ m /\ x ∈ row.
Proof.
  induction m as [|row0 m IH]; simpl; intros Hx.
  - by apply elem_of_nil in Hx.
  - apply elem_of_app in Hx as [Hx | Hx].
    + exists row0. split; [by left | done].
    + destruct (IH Hx) as (row & H1 & H2). exists row.
      split; [by right | done].
Qed.

(** C10, as amended: on every input with no rows or a first row of length
    zero, [column_sums] and [row_sums] return the empty sequence and
    [one_norm] and [infinity_norm] fail, because [max] of an empty sequence
    raises, whatever the other rows are.  [max_norm] does not use
    [column_sums] or [row_sums]: it takes [max] over the elements of all
    rows, so it fails when every row is empty, which is the case of every
    empty matrix whose rows have one length, and it returns [float] of an
    element's absolute value when a later row has an element. *)
Theorem norms_raise_on_empty {A : Type} `{PyNum A}
    (py_float : A -> py R) (m : list (list A)) :
  m = [] \/ hd [] m = [] ->
  column_sums m = Return [] /\
  row_sums m = Return [] /\
  one_norm py_float m = Raise EmptyMaxError /\
  infinity_norm py_float m = Raise EmptyMaxError /\
  (Forall (fun row => row = []) m ->
     max_norm py_float m = Raise EmptyMaxError) /\
  (rectangular m -> max_norm py_float m = Raise EmptyMaxError) /\
  (Exists (fun row => row <> []) m ->
     exists row x, row ∈ m /\ x ∈ row /\
       max_norm py_float m = py_float (py_abs x)).
Proof.
  intros Hm. apply is_empty_true in Hm.
  split; [by apply column_sums_empty|].
  split; [by apply row_sums_empty|].
  split; [by apply one_norm_empty|].
  split; [by apply infinity_norm_empty|].
  split; [|split].
  - intros Hall. unfold max_norm. by rewrite (concat_all_empty m Hall).
  - intros Hrect. by apply max_norm_empty.
  - intros Hex. pose proof (concat_some_row m Hex) as Hne.
    destruct (py_max_elem py_gtb (py_abs <$> concat m)) as (best & Hbest & Hin).
    { intros Hnil. by apply fmap_nil_inv in Hnil. }
    apply list_elem_of_fmap in Hin as (x & Hx & Hxin).
    destruct (elem_of_concat_row x m Hxin) as (row & Hrow & Hxrow).
    exists row, x. split; [done|]. split; [done|].
    unfold max_norm. by rewrite Hbest, bind_Return, Hx.
Qed.

Lemma norms_raise_on_empty_witness :
  column_sums ([[]; []] : list (list Z)) = Return [] /\
  row_sums ([[]; []] : list (list Z)) = Return [] /\
  one_norm (fun x => Return (IZR x)) [[]; []] = Raise EmptyMaxError /\
  infinity_norm (fun x => Return (IZR x)) [[]; []] = Raise EmptyMaxError /\
  max_norm (fun x => Return (IZR x)) [[]; []] = Raise EmptyMaxError /\
  exists row x, row ∈ [[]; [3; -4]] /\ x ∈ row /\
    max_norm (fun x => Return (IZR x)) [[]; [3; -4]]
      = Return (IZR (Z.abs x)).
Proof.
  destruct (norms_raise_on_empty (fun x => Return (IZR x)) [[]; []])
    as (Hc & Hr & H1 & Hi & Hm & _ & _).
  { right. reflexivity. }
  destruct (norms_raise_on_empty (fun x => Return (IZR x)) [[]; [3; -4]])
    as (_ & _ & _ & _ & _ & _ & Hx).
  { right. reflexivity. }
  split; [exact Hc|]. split; [exact Hr|]. split; [exact H1|].
  split; [exact Hi|]. split.
  - apply Hm. by repeat apply Forall_cons_2.
  - apply Hx. apply Exists_cons_tl, Exists_cons_hd. discriminate.
Defined.

(** C10 as stated fails for [max_norm] on an input whose first row is empty
    and whose second row is not: [max_norm([[], [3, -4]])] returns [4.0]. *)
Lemma norms_raise_on_empty_counterexample :
  hd [] ([[]; [3; -4]] : list (list Z)) = [] /\
  max_norm (fun x => Return (IZR x)) [[]; [3; -4]] = Return (IZR 4).
Proof. split; reflexivity. Qed.

(** ** The two-norm pipeline *)

Section Pipeline.
Context {A : Type} `{PyNum A}.
Variable E : Type.
Variable eigvals : list (list A) -> option (list E).
Variable abs_eig : E -> R.
Variable pow_half : R -> R.
Implicit Types m : list (list A).

(** The Gram matrix of an [r] by [c] matrix is computed without error and
    is [c] by [c]. *)
Lemma gram_shape r c m :
  has_shape r c m -> (0 < r)%nat -> (0 < c)%nat ->
  exists t g, transpose m = Return t /\ has_shape c r t /\
    (forall i j, (i < r)%nat -> (j < c)%nat -> entry t j i = entry m i j) /\
    matrix_multiply t m = Return g /\ has_shape c c g /\
    (forall i j, (i < c)%nat -> (j < c)%nat ->
       entry g i j = Some (dot t m i j r)).
Proof.
  intros Hm Hr Hc.
  destruct (transpose_spec r c m Hm Hr Hc) as (t & Ht & Hshape & Hent).
  destruct (matrix_multiply_spec c r c t m Hshape Hm Hc Hr)
    as (g & Hg & Hgshape & Hgent).
  by exists t, g.
Qed.

(** [spectral_formula] raises nothing but the error of [max]. *)
Lemma spectral_formula_cases (ev : list E) :
  (ev = [] /\ spectral_formula E abs_eig pow_half ev = Raise EmptyMaxError) \/
  (exists x, spectral_formula E abs_eig pow_half ev = Return x).
Proof.
  destruct ev as [|x ev]; [by left|].
  right. unfold spectral_formula. simpl. by eexists.
Qed.

(** On an empty matrix the pipeline reaches [compute_eigenvalues] with the
    Gram matrix [[]]. *)
Lemma two_norm_empty_unfold m :
  is_empty m = true ->
  two_norm E eigvals abs_eig pow_half m =
    (ev ← compute_eigenvalues E eigvals []; spectral_formula E abs_eig pow_half ev).
Proof.
  intros Hm. unfold two_norm. by rewrite (transpose_empty _ Hm).
Qed.

End Pipeline.

(** C3: for every non-empty rectangular [r] by [c] matrix ([r >= 1],
    [c >= 1]) the Gram matrix [matrix_multiply(transpose(m), m)] is
    computed and is a square [c] by [c] matrix, also when [r <> c]; the
    squareness test of [compute_eigenvalues] lets it through, so [two_norm]
    does not fail with the ShapeError. *)
Theorem two_norm_no_shape_error {A : Type} `{PyNum A}
    (E : Type) (eigvals : list (list A) -> option (list E))
    (abs_eig : E -> R) (pow_half : R -> R)
    (r c : nat) (m : list (list A)) :
  has_shape r c m -> (1 <= r)%nat -> (1 <= c)%nat ->
  (exists t g, transpose m = Return t /\ matrix_multiply t m = Return g /\
     has_shape c c g /\
     compute_eigenvalues E eigvals g <> Raise ShapeError) /\
  two_norm E eigvals abs_eig pow_half m <> Raise ShapeError.
Proof.
  intros Hm Hr Hc.
  destruct (gram_shape r c m Hm) as (t & g & Ht & _ & _ & Hg & Hshape & _);
    [lia..|].
  assert (compute_eigenvalues E eigvals g <> Raise ShapeError) as Hce.
  { rewrite (compute_eigenvalues_shape_error E eigvals c c g Hshape); [|lia].
    intros Hne. by apply Hne. }
  split; [by exists t, g|].
  unfold two_norm. rewrite Ht. simpl. rewrite Hg. simpl.
  destruct (compute_eigenvalues E eigvals g) as [ev|e] eqn:Hev; simpl.
  - destruct (spectral_formula_cases E abs_eig pow_half ev)
      as [[_ ->] | [x ->]]; done.
  - congruence.
Qed.

Lemma two_norm_no_shape_error_witness :
  (exists t g, transpose [[1; 2; 3]; [4; 5; 6]] = Return t /\
     matrix_multiply t [[1; 2; 3]; [4; 5; 6]] = Return g /\
     has_shape 3 3 g /\
     compute_eigenvalues R (fun _ => None) g <> Raise ShapeError) /\
  two_norm R (fun _ => None) Rabs sqrt [[1; 2; 3]; [4; 5; 6]]
    <> Raise ShapeError.
Proof.
  apply (two_norm_no_shape_error R (fun _ => None) Rabs sqrt 2%nat 3%nat
           [[1; 2; 3]; [4; 5; 6]]).
  - concrete_shape.
  - lia.
  - lia.
Defined.

(** C5, at the input that separates the code from the claim: the matrix
    with no rows.  [np.array([])] has the one-dimensional shape [(0,)], so
    reading [shape[1]] in the squareness test raises IndexError, whatever
    the eigenvalue routine is; no eigenvalues are returned. *)
Theorem compute_eigenvalues_no_rows {A : Type}
    (E : Type) (eigvals : list (list A) -> option (list E)) :
  compute_eigenvalues E eigvals [] = Raise IndexError.
Proof. reflexivity. Qed.

(** C4, as amended: on an empty matrix (no rows, or a first row of length
    zero) [transpose] and [matrix_multiply] produce the empty Gram matrix
    [[]] without error, but [two_norm] does not return a value: it ends in an
    error.  The norm formula itself, [max(abs(x) for x in eigenvalues)],
    raises on an empty eigenvalue sequence. *)
Theorem two_norm_empty {A : Type} `{PyNum A}
    (E : Type) (eigvals : list (list A) -> option (list E))
    (abs_eig : E -> R) (pow_half : R -> R) (m : list (list A)) :
  m = [] \/ hd [] m = [] ->
  transpose m = Return [] /\
  matrix_multiply [] m = Return [] /\
  spectral_formula E abs_eig pow_half [] = Raise EmptyMaxError /\
  exists e, two_norm E eigvals abs_eig pow_half m = Raise e.
Proof.
  intros Hm. apply is_empty_true in Hm.
  split; [by apply transpose_empty|].
  split; [done|]. split; [done|].
  exists IndexError. by rewrite (two_norm_empty_unfold E eigvals abs_eig pow_half m Hm).
Qed.

Lemma two_norm_empty_witness :
  transpose ([[]; []] : list (list Z)) = Return [] /\
  matrix_multiply [] ([[]; []] : list (list Z)) = Return [] /\
  spectral_formula R Rabs sqrt [] = Raise EmptyMaxError /\
  exists e, two_norm R (fun _ => Some []) Rabs sqrt
              ([[]; []] : list (list Z)) = Raise e.
Proof.
  apply (two_norm_empty R (fun _ => Some []) Rabs sqrt ([[]; []] : list (list Z))).
  right. reflexivity.
Defined.

(** C4 as stated fails on the matrix with no rows: even with an eigenvalue
    routine that answers the empty list for it, [compute_eigenvalues]
    raises on the empty Gram matrix, and so does the norm formula on an
    empty list of eigenvalues. *)
Lemma two_norm_empty_counterexample :
  compute_eigenvalues R (fun _ : list (list Z) => Some []) [] = Raise IndexError /\
  spectral_formula R Rabs sqrt [] = Raise EmptyMaxError /\
  two_norm R (fun _ : list (list Z) => Some []) Rabs sqrt [] = Raise IndexError.
Proof. split; [reflexivity | split; reflexivity]. Qed.

(** ** The pipeline of the specification and the scenario [[1,2],[3,4]] *)

Section SpecPipelineFacts.
Context {A : Type} `{PyNum A}.
Variable E : Type.
Variable eigvals : list (list A) -> option (list E).
Variable abs_eig : E -> R.
Variable pow_half : R -> R.

Lemma two_norm_is_pipeline m :
  two_norm E eigvals abs_eig pow_half m
    = spec_two_norm E eigvals abs_eig pow_half m.
Proof.
  unfold two_norm, spec_two_norm, spec_gram, spectral_formula.
  destruct (transpose m) as [t|e]; simpl; [|done].
  destruct (matrix_multiply t m) as [g|e]; simpl; [|done].
  destruct (compute_eigenvalues E eigvals g) as [ev|e]; simpl; [|done].
  unfold spec_max_abs_eigenvalue.
  by destruct (py_max Rgtb (abs_eig <$> ev)).
Qed.

End SpecPipelineFacts.

Section Scenario.
Open Scope R_scope.

Lemma py_max_pair (a1 a2 : R) : py_max Rgtb [a1; a2] = Return (Rmax a1 a2).
Proof.
  unfold py_max, Rgtb, Rmax. simpl.
  destruct (Rgt_dec a2 a1), (Rle_dec a1 a2); f_equal; lra.
Qed.

(** The larger root of [x^2 - 30 x + 4]. *)
Lemma gram_root_bounds (e : R) :
  15 <= e -> e * e - 30 * e + 4 = 0 ->
  29.8660687473 < e < 29.8660687474.
Proof.
  intros H15 Hroot. split.
  - destruct (Rlt_le_dec 29.8660687473 e) as [|Hle]; [done|].
    assert (0 <= (29.8660687473 - e) * (29.8660687473 + e - 30))
      by (apply Rmult_le_pos; lra).
    lra.
  - destruct (Rlt_le_dec e 29.8660687474) as [|Hle]; [done|].
    assert (0 <= (e - 29.8660687474) * (29.8660687474 + e - 30))
      by (apply Rmult_le_pos; lra).
    lra.
Qed.

(** The eigenvalues of the Gram matrix [[10,14],[14,20]] are positive, and
    the larger lies between the two bounds. *)
Lemma gram_eigenvalues (e1 e2 : R) :
  exact_eigenvalues2 [[10; 14]; [14; 20]]%Z e1 e2 ->
  0 < e1 /\ 0 < e2 /\ 29.8660687473 < Rmax e1 e2 < 29.8660687474.
Proof.
  intros Hex.
  pose proof (Hex 0) as H0. pose proof (Hex 1) as H1.
  unfold char_poly2, entry0, entry in H0, H1. simpl in H0, H1.
  assert (e1 * e2 = 4) as Hprod by lra.
  assert (e1 + e2 = 30) as Hsum by lra.
  assert (0 < e1) as Hp1 by nra.
  assert (0 < e2) as Hp2 by nra.
  split; [done|]. split; [done|].
  unfold Rmax. destruct (Rle_dec e1 e2).
  - apply gram_root_bounds; nra.
  - apply gram_root_bounds; nra.
Qed.

Lemma Rabs_le_bounds (x y : R) : Rabs x <= y -> - y <= x <= y.
Proof. unfold Rabs. destruct (Rcase_abs x); lra. Qed.

Lemma sqrt_between (x lo hi : R) :
  0 <= lo -> lo * lo <= x -> x <= hi * hi -> 0 <= hi ->
  lo <= sqrt x <= hi.
Proof.
  intros Hlo H1 H2 Hhi. split.
  - rewrite <- (sqrt_square lo Hlo). by apply sqrt_le_1_alt.
  - rewrite <- (sqrt_square hi Hhi). by apply sqrt_le_1_alt.
Qed.

End Scenario.

(** C1: [two_norm] is the pipeline of the specification: transpose the
    input, multiply the transpose by the input (the Gram matrix), compute
    the eigenvalues of the Gram matrix, take the greatest absolute value and
    its square root.  For [[1,2],[3,4]] the Gram matrix is
    [[10,14],[14,20]], and whenever the eigenvalue routine returns its two
    eigenvalues to within [1e-9] and [x ** 0.5] is the square root to
    within [1e-10], the result is within [1e-9] of [5.464985704219043]. *)
Theorem two_norm_pipeline :
  (forall (A : Type) (H : PyNum A) (E : Type)
          (eigvals : list (list A) -> option (list E))
          (abs_eig : E -> R) (pow_half : R -> R) (m : list (list A)),
     two_norm E eigvals abs_eig pow_half m
       = spec_two_norm E eigvals abs_eig pow_half m) /\
  spec_gram [[1; 2]; [3; 4]] = Return [[10; 14]; [14; 20]] /\
  (forall (E : Type) (eigvals : list (list Z) -> option (list E))
          (abs_eig : E -> R) (pow_half : R -> R) (x1 x2 : E) (e1 e2 : R),
     eigvals [[10; 14]; [14; 20]] = Some [x1; x2] ->
     exact_eigenvalues2 [[10; 14]; [14; 20]] e1 e2 ->
     (Rabs (abs_eig x1 - Rabs e1) <= 1e-9)%R ->
     (Rabs (abs_eig x2 - Rabs e2) <= 1e-9)%R ->
     (forall x : R, (0 <= x <= 100)%R ->
        (Rabs (pow_half x - sqrt x) <= 1e-10)%R) ->
     exists r : R,
       two_norm E eigvals abs_eig pow_half [[1; 2]; [3; 4]] = Return r /\
       (Rabs (r - 5.464985704219043) < 1e-9)%R).
Proof.
  split; [|split].
  - intros. apply two_norm_is_pipeline.
  - reflexivity.
  - intros E eigvals abs_eig pow_half x1 x2 e1 e2 Hsolve Hexact Hx1 Hx2 Hpow.
    exists (pow_half (Rmax (abs_eig x1) (abs_eig x2))). split.
    + unfold two_norm.
      change (transpose [[1; 2]; [3; 4]]) with (Return [[1; 3]; [2; 4]]).
      rewrite bind_Return.
      change (matrix_multiply [[1; 3]; [2; 4]] [[1; 2]; [3; 4]])
        with (Return [[10; 14]; [14; 20]]).
      rewrite bind_Return.
      rewrite (compute_eigenvalues_rect E eigvals 2 2 [[10; 14]; [14; 20]])
        by (first [lia | concrete_shape]).
      rewrite Hsolve. cbn [Nat.eqb]. unfold spectral_formula.
      rewrite bind_Return.
      change (abs_eig <$> [x1; x2]) with [abs_eig x1; abs_eig x2].
      by rewrite py_max_pair.
    + destruct (gram_eigenvalues e1 e2 Hexact) as (Hp1 & Hp2 & Hlo & Hhi).
      rewrite (Rabs_pos_eq e1) in Hx1 by lra.
      rewrite (Rabs_pos_eq e2) in Hx2 by lra.
      apply Rabs_le_bounds in Hx1, Hx2.
      set (M := Rmax (abs_eig x1) (abs_eig x2)).
      assert (29.8660687463 <= M <= 29.8660687484)%R as [HM1 HM2].
      { split.
        - pose proof (Rmax_l (abs_eig x1) (abs_eig x2)).
          pose proof (Rmax_r (abs_eig x1) (abs_eig x2)).
          fold M in H, H0. revert Hlo. unfold Rmax at 1.
          destruct (Rle_dec e1 e2); lra.
        - pose proof (Rmax_l e1 e2). pose proof (Rmax_r e1 e2).
          apply Rmax_lub; lra. }
      destruct (sqrt_between M (5.464985704219043 - 2e-10)
                  (5.464985704219043 + 2e-10)) as [Hs1 Hs2]; [lra..|].
      specialize (Hpow M ltac:(lra)).
      apply Rabs_le_bounds in Hpow.
      apply Rabs_def1; lra.
Qed.

Lemma two_norm_pipeline_witness :
  exists r : R,
    two_norm R (fun _ => Some [15 - sqrt 221; 15 + sqrt 221]%R) Rabs sqrt
      [[1; 2]; [3; 4]] = Return r /\
    (Rabs (r - 5.464985704219043) < 1e-9)%R.
Proof.
  apply (proj2 (proj2 two_norm_pipeline) R
           (fun _ => Some [15 - sqrt 221; 15 + sqrt 221]%R) Rabs sqrt
           (15 - sqrt 221)%R (15 + sqrt 221)%R
           (15 - sqrt 221)%R (15 + sqrt 221)%R).
  - reflexivity.
  - intros x. unfold char_poly2, entry0, entry. simpl.
    pose proof (sqrt_sqrt 221 ltac:(lra)) as Hsq. nra.
  - unfold Rminus. rewrite Rplus_opp_r, Rabs_R0. lra.
  - unfold Rminus. rewrite Rplus_opp_r, Rabs_R0. lra.
  - intros x _. unfold Rminus. rewrite Rplus_opp_r, Rabs_R0. lra.
Defined.

(** ** Further properties of the pipeline *)

(** On a matrix with at least one row, [compute_eigenvalues] raises the
    ShapeError exactly when the row and column counts differ, and on a
    square one it returns what the eigenvalue routine returns. *)
Theorem compute_eigenvalues_square_check {A : Type}
    (E : Type) (eigvals : list (list A) -> option (list E))
    (r c : nat) (m : list (list A)) :
  has_shape r c m -> (1 <= r)%nat ->
  (compute_eigenvalues E eigvals m = Raise ShapeError <-> r <> c) /\
  (r = c ->
   compute_eigenvalues E eigvals m =
     match eigvals m with
     | Some eigenvalues => Return eigenvalues
     | None => Raise NumpyError
     end).
Proof.
  intros Hm Hr. split.
  - apply compute_eigenvalues_shape_error; [done | lia].
  - intros <-. rewrite (compute_eigenvalues_rect E eigvals r r m Hm) by lia.
    by rewrite Nat.eqb_refl.
Qed.

Lemma compute_eigenvalues_square_check_witness :
  (compute_eigenvalues R (fun _ => Some []) [[1; 2; 3]; [4; 5; 6]]
     = Raise ShapeError <-> 2%nat <> 3%nat) /\
  (2%nat = 3%nat ->
   compute_eigenvalues R (fun _ => Some []) [[1; 2; 3]; [4; 5; 6]] = Return []).
Proof.
  apply (compute_eigenvalues_square_check R (fun _ => Some []) 2%nat 3%nat
           [[1; 2; 3]; [4; 5; 6]]).
  - concrete_shape.
  - lia.
Defined.

Lemma entry_replicate {A} (r c : nat) (x : A) (i j : nat) :
  (i < r)%nat -> (j < c)%nat ->
  entry (replicate r (replicate c x)) i j = Some x.
Proof.
  intros Hi Hj. unfold entry.
  rewrite (lookup_replicate_2 r (replicate c x) i Hi). simpl.
  by apply lookup_replicate_2.
Qed.

Lemma py_sum_zeros {T} (l : list T) : py_sum ((fun _ => 0) <$> l) = 0.
Proof.
  rewrite py_sum_Z. induction l as [|x l IH]; [done|].
  rewrite fmap_cons. simpl. exact IH.
Qed.

(** The Gram matrix of an all-zero integer matrix with [r >= 1] rows and
    [c >= 1] columns is the all-zero [c] by [c] matrix. *)
Theorem zero_matrix_gram (r c : nat) :
  (1 <= r)%nat -> (1 <= c)%nat ->
  spec_gram (replicate r (replicate c 0)) = Return (replicate c (replicate c 0)).
Proof.
  intros Hr Hc.
  destruct (gram_shape r c (replicate r (replicate c 0)))
    as (t & g & Ht & Htshape & Htent & Hg & Hgshape & Hgent);
    [apply has_shape_replicate | lia | lia |].
  unfold spec_gram. rewrite Ht, bind_Return, Hg. f_equal.
  apply (matrix_ext c c); [done | apply has_shape_replicate |].
  intros i j Hi Hj. rewrite (Hgent i j Hi Hj), entry_replicate by done.
  f_equal. unfold dot.
  rewrite <- (py_sum_zeros (seq 0 r)). f_equal.
  apply list_fmap_ext. intros n k Hk.
  apply lookup_seq in Hk as [Hkn Hn]. simpl in Hkn. subst k.
  unfold entry0.
  rewrite (Htent n i Hn Hi), !entry_replicate by done. done.
Qed.

Lemma zero_matrix_gram_witness :
  spec_gram [[0; 0; 0]; [0; 0; 0]] = Return [[0; 0; 0]; [0; 0; 0]; [0; 0; 0]].
Proof. apply (zero_matrix_gram 2 3); lia. Defined.

(** ** The doctests of the further functions *)

Example vector_norm_doctests :
  VectorNorms.one_norm (fun x => Return (IZR x)) [1; -2; 3; -4] = Return 10%R /\
  VectorNorms.max_norm (fun x => Return (IZR x)) [1; -2; 3; -4] = Return 4%R /\
  VectorNorms.previous_difference_norm (fun x => Return (IZR x)) [2; 5; 1; -3]
    = Return 13%R /\
  VectorNorms.previous_difference_norm (fun x => Return (IZR x)) [-4; -2; 7]
    = Return 15%R.
Proof. repeat split; reflexivity. Qed.

(** ** Loops that raise *)

(** A loop raises [e] when one of its iterations does and the ones before
    it return and keep the invariant under which that iteration raises. *)
Lemma for_each_raise {T St} (Inv : St -> Prop) (bad : T -> Prop) (e : exn)
    (xs : list T) body s :
  Inv s ->
  (forall x, x ∈ xs -> bad x \/ ~ bad x) ->
  (forall x s, x ∈ xs -> Inv s -> bad x -> body x s = Raise e) ->
  (forall x s, x ∈ xs -> Inv s -> ~ bad x ->
     exists s', body x s = Return s' /\ Inv s') ->
  Exists bad xs ->
  for_each xs body s = Raise e.
Proof.
  revert s. induction xs as [|x xs IH]; intros s Hs Hdec Hbad Hgood Hex.
  - by apply Exists_nil in Hex.
  - simpl. destruct (Hdec x ltac:(left)) as [Hx | Hx].
    + by rewrite (Hbad x s ltac:(left) Hs Hx).
    + destruct (Hgood x s ltac:(left) Hs Hx) as (s' & -> & Hs').
      rewrite bind_Return. apply IH; [done | | | |].
      * intros y Hy. apply Hdec. by right.
      * intros y t Hy. apply Hbad. by right.
      * intros y t Hy. apply Hgood. by right.
      * apply Exists_cons in Hex as [Hex | Hex]; [done | done].
Qed.

(** ** row_sums and column_sums *)

Section SumsFacts.
Context {A : Type} `{PyNum A}.
Implicit Types m : list (list A).

(** [l[j] += v] inside the list. *)
Lemma add_at_ok (l : list A) j old v :
  l !! j = Some old ->
  MatrixOperations.add_at l j (Return v) = Return (<[j := py_add old v]> l).
Proof.
  intros Hj. unfold MatrixOperations.add_at.
  rewrite (py_get_lookup _ _ _ Hj), !bind_Return.
  apply py_set_lt. by eapply lookup_lt_Some.
Qed.

(** [row_sums] has no failing path: past the guard it returns one sum per
    row, whatever the lengths of the rows. *)
Lemma row_sums_value m :
  is_empty m = false -> row_sums m = Return (row_abs_sum <$> m).
Proof.
  intros Hm. unfold row_sums. rewrite Hm.
  destruct (for_each_inv
    (fun k (st : list A * nat) =>
       st.2 = k /\
       st.1 = (row_abs_sum <$> take k m) ++ replicate (length m - k) py_zero)
    m
    (fun row '(row_sums, counter) =>
       row_sums' ← MatrixOperations.add_at row_sums counter
                     (Return (py_sum (py_abs <$> row)));
       mret (row_sums', S counter))
    (replicate (length m) py_zero, 0%nat)) as ([rs cnt] & Hrun & Hcnt & Hrs).
  - split; [done|]. simpl. by rewrite Nat.sub_0_r.
  - intros k row [rs cnt] Hk [Hcnt Hrs]. simpl in Hcnt, Hrs. subst cnt.
    pose proof (lookup_lt_Some _ _ _ Hk) as Hlt.
    assert (length (row_abs_sum <$> take k m) = k) as Hlen
      by (rewrite length_fmap, length_take; lia).
    assert (rs !! k = Some py_zero) as Hold.
    { rewrite Hrs, lookup_app_r by lia. rewrite Hlen, Nat.sub_diag.
      apply lookup_replicate_2. lia. }
    rewrite (add_at_ok rs k py_zero _ Hold), bind_Return.
    eexists. split; [done|]. split; [done|]. simpl.
    rewrite Hrs, insert_app_r_alt by lia. rewrite Hlen, Nat.sub_diag.
    rewrite (take_S_r _ _ _ Hk), fmap_app, <- app_assoc. f_equal.
    replace (length m - k)%nat with (S (length m - S k)) by lia.
    done.
  - simpl in Hcnt, Hrs. rewrite Hrun. simpl.
    rewrite Hrs, firstn_all, Nat.sub_diag. simpl. by rewrite app_nil_r.
Qed.

End SumsFacts.

Section ColumnSumsFacts.
Context {A : Type} `{PyNum A}.
Implicit Types m rows : list (list A).
Implicit Types cs : list A.

(** One pass of the inner loop of [column_sums] over a row. *)
Local Abbreviation add_row :=
  (zip_with (fun a x : A => py_add a (py_abs x))).

Lemma add_at_entry cs (row : list A) j old x :
  cs !! j = Some old -> row !! j = Some x ->
  MatrixOperations.add_at cs j (x ← py_get row j; mret (py_abs x))
    = Return (<[j := py_add old (py_abs x)]> cs).
Proof.
  intros Hold Hx. rewrite (py_get_lookup _ _ _ Hx), bind_Return.
  by apply add_at_ok.
Qed.

Lemma add_at_short cs (row : list A) j :
  (j < length cs)%nat -> (length row <= j)%nat ->
  MatrixOperations.add_at cs j (x ← py_get row j; mret (py_abs x))
    = Raise IndexError.
Proof.
  intros Hj Hrow. unfold MatrixOperations.add_at.
  destruct (lookup_lt_is_Some_2 cs j Hj) as [old Hold].
  rewrite (py_get_lookup _ _ _ Hold), bind_Return.
  unfold py_get at 1. by rewrite (lookup_ge_None_2 row j Hrow).
Qed.

Lemma column_pass_ok cols cs (row : list A) :
  length cs = cols -> (cols <= length row)%nat ->
  for_range cols (fun j column_sums =>
    MatrixOperations.add_at column_sums j (x ← py_get row j; mret (py_abs x)))
    cs = Return (add_row cs row).
Proof.
  intros Hcs Hrow.
  destruct (for_range_inv
    (fun j st => length st = cols /\
       forall j', st !! j' =
         if decide (j' < j)%nat then add_row cs row !! j' else cs !! j')
    cols
    (fun j column_sums =>
       MatrixOperations.add_at column_sums j (x ← py_get row j; mret (py_abs x)))
    cs) as (st & Hrun & Hlen & Hst).
  - split; [done|]. intros j'. by destruct (decide (j' < 0)%nat); [lia|].
  - intros j st Hj [Hlen Hst].
    destruct (lookup_lt_is_Some_2 cs j) as [old Hold]; [lia|].
    destruct (lookup_lt_is_Some_2 row j) as [x Hx]; [lia|].
    assert (st !! j = Some old) as Hstj.
    { rewrite Hst. by destruct (decide (j < j)%nat); [lia|]. }
    rewrite (add_at_entry st row j old x Hstj Hx).
    eexists. split; [done|]. split; [by rewrite length_insert|].
    intros j'. destruct (decide (j' = j)) as [->|Hne].
    + rewrite list_lookup_insert_eq by lia.
      destruct (decide (j < S j)%nat); [|lia].
      rewrite lookup_zip_with, Hold, Hx. done.
    + rewrite list_lookup_insert_ne by done. rewrite Hst.
      destruct (decide (j' < j)%nat), (decide (j' < S j)%nat); done || lia.
  - rewrite Hrun. f_equal. apply list_eq. intros j'. rewrite Hst.
    destruct (decide (j' < cols)%nat); [done|].
    rewrite lookup_zip_with, (lookup_ge_None_2 cs j') by lia. done.
Qed.

Lemma column_pass_short cols cs (row : list A) :
  length cs = cols -> (length row < cols)%nat ->
  for_range cols (fun j column_sums =>
    MatrixOperations.add_at column_sums j (x ← py_get row j; mret (py_abs x)))
    cs = Raise IndexError.
Proof.
  intros Hcs Hrow. unfold for_range.
  apply (for_each_raise (fun st => length st = cols)
           (fun j => (length row <= j)%nat)); [done | | | |].
  - intros j _. lia.
  - intros j st Hj Hst Hbad. apply list_elem_of_lookup in Hj as [k Hk].
    apply lookup_seq in Hk as [-> Hk]. apply add_at_short; simpl; lia.
  - intros j st Hj Hst Hgood.
    destruct (lookup_lt_is_Some_2 st j) as [old Hold].
    { apply list_elem_of_lookup in Hj as [k Hk].
      apply lookup_seq in Hk as [-> Hk]. simpl. lia. }
    destruct (lookup_lt_is_Some_2 row j) as [x Hx]; [lia|].
    rewrite (add_at_entry st row j old x Hold Hx).
    eexists. split; [done|]. by rewrite length_insert.
  - apply Exists_exists. exists (length row). split; [|lia].
    apply list_elem_of_lookup. exists (length row).
    apply lookup_seq. split; [done | lia].
Qed.

Lemma add_row_length cols cs (row : list A) :
  length cs = cols -> (cols <= length row)%nat ->
  length (add_row cs row) = cols.
Proof. intros Hcs Hrow. rewrite length_zip_with. lia. Qed.

(** The outer loop over rows that are at least [cols] long. *)
Lemma column_loop_ok cols rows cs :
  length cs = cols -> Forall (fun row => (cols <= length row)%nat) rows ->
  for_each rows (fun row column_sums =>
    for_range cols (fun j column_sums =>
      MatrixOperations.add_at column_sums j (x ← py_get row j; mret (py_abs x)))
      column_sums) cs
  = Return (foldl add_row cs rows).
Proof.
  revert cs. induction rows as [|row rows IH]; intros cs Hcs Hrows; [done|].
  apply Forall_cons in Hrows as [Hrow Hrows]. simpl.
  rewrite (column_pass_ok cols cs row Hcs Hrow), bind_Return.
  apply IH; [by apply add_row_length | done].
Qed.

(** The outer loop with a row that is too short. *)
Lemma column_loop_short cols rows cs :
  length cs = cols -> Exists (fun row => (length row < cols)%nat) rows ->
  for_each rows (fun row column_sums =>
    for_range cols (fun j column_sums =>
      MatrixOperations.add_at column_sums j (x ← py_get row j; mret (py_abs x)))
      column_sums) cs
  = Raise IndexError.
Proof.
  intros Hcs Hex.
  apply (for_each_raise (fun st => length st = cols)
           (fun row => (length row < cols)%nat)); [done | | | | done].
  - intros row _. lia.
  - intros row st _ Hst Hbad. by apply column_pass_short.
  - intros row st _ Hst Hgood.
    rewrite (column_pass_ok cols st row Hst) by lia.
    eexists. split; [done|]. apply add_row_length; [done | lia].
Qed.

(** What the passes leave in position [j]. *)
Lemma foldl_add_row_lookup cols rows cs j a :
  length cs = cols -> Forall (fun row => (cols <= length row)%nat) rows ->
  cs !! j = Some a ->
  foldl add_row cs rows !! j =
    Some (foldl (fun acc row => py_add acc (py_abs (default py_zero (row !! j))))
            a rows).
Proof.
  revert cs a. induction rows as [|row rows IH]; intros cs a Hcs Hrows Ha;
    [done|].
  apply Forall_cons in Hrows as [Hrow Hrows]. simpl.
  pose proof (lookup_lt_Some _ _ _ Ha) as Hj.
  destruct (lookup_lt_is_Some_2 row j) as [x Hx]; [lia|].
  apply IH; [by apply add_row_length | done |].
  rewrite lookup_zip_with, Ha, Hx. done.
Qed.

(** Past the guard, on rows at least as long as the first one,
    [column_sums] returns one sum per column of the first row. *)
Lemma column_sums_value m c :
  m <> [] -> length (hd [] m) = c -> (0 < c)%nat ->
  Forall (fun row => (c <= length row)%nat) m ->
  exists sums, column_sums m = Return sums /\ length sums = c /\
    forall j, (j < c)%nat -> sums !! j = Some (col_abs_sum m j).
Proof.
  intros Hne Hc Hpos Hrows.
  assert (is_empty m = false) as Hm.
  { destruct m as [|[|x row] m]; simpl in *; [done | lia | done]. }
  exists (foldl add_row (replicate c py_zero) m).
  unfold column_sums. rewrite Hm, Hc.
  rewrite (column_loop_ok c m (replicate c py_zero))
    by (done || by rewrite length_replicate).
  split; [done|]. split.
  - clear Hne Hc Hm.
    assert (length (replicate c (py_zero : A)) = c) as Hlen
      by by rewrite length_replicate.
    revert Hlen. generalize (replicate c (py_zero : A)) as cs.
    induction m as [|row m IH]; intros cs Hlen; [done|].
    apply Forall_cons in Hrows as [Hrow Hrows]. simpl.
    apply IH; [done|]. by apply add_row_length.
  - intros j Hj.
    rewrite (foldl_add_row_lookup c m _ j py_zero)
      by (done || by rewrite ?length_replicate, ?lookup_replicate_2).
    unfold col_abs_sum, py_sum. by rewrite foldl_fmap.
Qed.

(** [column_sums] raises when a row is shorter than the first one. *)
Lemma column_sums_short_row m :
  hd [] m <> [] ->
  Exists (fun row => (length row < length (hd [] m))%nat) m ->
  column_sums m = Raise IndexError.
Proof.
  intros Hhd Hex.
  assert (is_empty m = false) as Hm.
  { destruct m as [|[|x row] m]; simpl in *; done. }
  unfold column_sums. rewrite Hm.
  apply column_loop_short; [by rewrite length_replicate | done].
Qed.

End ColumnSumsFacts.

(** ** transpose on rows of different lengths *)

Section TransposeRagged.
Context {A : Type} `{PyNum A}.
Implicit Types m t : list (list A).

(** The inner loop of [transpose] on a row at least as long as the first:
    it returns and keeps the shape. *)
Lemma transpose_row_ok r c m t i row :
  has_shape c r t -> (i < r)%nat -> m !! i = Some row ->
  (c <= length row)%nat ->
  exists t', for_range c (fun j transposed_matrix =>
      row ← py_get m i; v ← py_get row j;
      MatrixOperations.set_entry transposed_matrix j i v) t = Return t' /\
    has_shape c r t'.
Proof.
  intros Ht Hi Hrow Hlen.
  apply (for_range_inv (fun _ t' => has_shape c r t')); [done|].
  intros j t0 Hj Ht0.
  destruct (lookup_lt_is_Some_2 row j) as [x Hx]; [lia|].
  rewrite (py_get_lookup _ _ _ Hrow), bind_Return.
  rewrite (py_get_lookup _ _ _ Hx), bind_Return.
  destruct (set_entry_spec c r t0 j i x Ht0 Hj Hi) as (t1 & Hset & Ht1 & _).
  by exists t1.
Qed.

(** The inner loop on a row shorter than the first: reading past its end
    raises. *)
Lemma transpose_row_short r c m t i row :
  has_shape c r t -> (i < r)%nat -> m !! i = Some row ->
  (length row < c)%nat ->
  for_range c (fun j transposed_matrix =>
      row ← py_get m i; v ← py_get row j;
      MatrixOperations.set_entry transposed_matrix j i v) t
    = Raise IndexError.
Proof.
  intros Ht Hi Hrow Hlen. unfold for_range.
  apply (for_each_raise (fun t' => has_shape c r t')
           (fun j => (length row <= j)%nat)); [done | | | |].
  - intros j _. lia.
  - intros j t0 _ _ Hbad.
    rewrite (py_get_lookup _ _ _ Hrow), bind_Return.
    unfold py_get. by rewrite (lookup_ge_None_2 row j Hbad).
  - intros j t0 Hj Ht0 Hgood.
    apply list_elem_of_lookup in Hj as [k Hk].
    apply lookup_seq in Hk as [-> Hk]. simpl in *.
    destruct (lookup_lt_is_Some_2 row k) as [x Hx]; [lia|].
    rewrite (py_get_lookup _ _ _ Hrow), bind_Return.
    rewrite (py_get_lookup _ _ _ Hx), bind_Return.
    destruct (set_entry_spec c r t0 k i x Ht0 Hk Hi) as (t1 & Hset & Ht1 & _).
    by exists t1.
  - apply Exists_exists. exists (length row). split; [|lia].
    apply list_elem_of_lookup. exists (length row).
    apply lookup_seq. split; [done | lia].
Qed.

(** [transpose] raises when a row is shorter than the first one. *)
Lemma transpose_short_row m :
  hd [] m <> [] ->
  Exists (fun row => (length row < length (hd [] m))%nat) m ->
  transpose m = Raise IndexError.
Proof.
  intros Hhd Hex.
  assert (is_empty m = false) as Hm.
  { destruct m as [|[|x row] m]; simpl in *; done. }
  unfold transpose. rewrite Hm. unfold for_range at 1.
  set (c := length (hd [] m)). set (r := length m).
  apply (for_each_raise (fun t => has_shape c r t)
           (fun i => exists row, m !! i = Some row /\ (length row < c)%nat)).
  - apply has_shape_replicate.
  - intros i Hi. apply list_elem_of_lookup in Hi as [k Hk].
    apply lookup_seq in Hk as [-> Hk]. simpl.
    destruct (lookup_lt_is_Some_2 m k Hk) as [row Hrow].
    destruct (decide (length row < c)%nat) as [Hlt | Hge].
    + left. by exists row.
    + right. intros (row' & Hrow' & Hlt). rewrite Hrow in Hrow'.
      injection Hrow' as <-. lia.
  - intros i t Hi Ht (row & Hrow & Hlt).
    apply (transpose_row_short r c m t i row); [done | | done | done].
    by eapply lookup_lt_Some.
  - intros i t Hi Ht Hgood.
    apply list_elem_of_lookup in Hi as [k Hk].
    apply lookup_seq in Hk as [-> Hk]. simpl in *.
    destruct (lookup_lt_is_Some_2 m k Hk) as [row Hrow].
    apply (transpose_row_ok r c m t k row); [done | done | done |].
    destruct (decide (length row < c)%nat) as [Hlt | Hge]; [|lia].
    exfalso. apply Hgood. by exists row.
  - apply Exists_exists in Hex as (row & Hin & Hlt).
    apply list_elem_of_lookup in Hin as [i Hi].
    apply Exists_exists. exists i. split.
    + apply list_elem_of_lookup. exists i.
      apply lookup_seq. split; [done | by eapply lookup_lt_Some].
    + by exists row.
Qed.

End TransposeRagged.

(** ** Sums and maxima of integers *)

Section IntegerFacts.
Implicit Types l : list Z.

(** [max] returns an element that no element exceeds. *)
Lemma py_max_Z l :
  l <> [] ->
  exists x, py_max py_gtb l = Return x /\ x ∈ l /\ forall y, y ∈ l -> y <= x.
Proof.
  destruct l as [|x0 l]; [done|]. intros _. simpl.
  eexists. split; [done|].
  assert (forall best,
    let x := foldl (fun best y => if (y >? best) then y else best) best l in
    x ∈ best :: l /\ best <= x /\ forall y, y ∈ l -> y <= x) as Hgen.
  { induction l as [|y l IH]; intros best; simpl.
    - split; [by left|]. split; [lia|]. intros y Hy. by apply elem_of_nil in Hy.
    - destruct (IH (if y >? best then y else best)) as (Hin & Hle & Hall).
      split; [|split].
      + apply elem_of_cons in Hin as [Heq | Hin].
        * rewrite Heq. destruct (y >? best); [right; left | left].
        * right. by right.
      + destruct (Z.gtb_spec y best); lia.
      + intros z Hz. apply elem_of_cons in Hz as [Hz | Hz]; [|by apply Hall].
        subst z. destruct (Z.gtb_spec y best); lia. }
  destruct (Hgen x0) as (Hin & Hle & Hall).
  split; [done|]. intros y Hy.
  apply elem_of_cons in Hy as [-> | Hy]; [done | by apply Hall].
Qed.

Lemma sum_nonneg l : Forall (fun x => 0 <= x) l -> 0 <= foldr Z.add 0 l.
Proof.
  induction 1 as [|x l Hx Hl IH]; simpl; lia.
Qed.

Lemma sum_ge_elem l x :
  Forall (fun x => 0 <= x) l -> x ∈ l -> x <= foldr Z.add 0 l.
Proof.
  induction 1 as [|y l Hy Hl IH]; intros Hin.
  - by apply elem_of_nil in Hin.
  - pose proof (sum_nonneg l Hl). simpl.
    apply elem_of_cons in Hin as [-> | Hin]; [lia|].
    specialize (IH Hin). lia.
Qed.

Lemma sum_le_bound l a :
  Forall (fun x => x <= a) l -> foldr Z.add 0 l <= Z.of_nat (length l) * a.
Proof.
  induction 1 as [|y l Hy Hl IH]; simpl length; simpl foldr; lia.
Qed.

Lemma sum_zero l :
  Forall (fun x => 0 <= x) l ->
  foldr Z.add 0 l = 0 <-> Forall (fun x => x = 0) l.
Proof.
  induction 1 as [|y l Hy Hl IH]; simpl.
  - split; [constructor | done].
  - pose proof (sum_nonneg l Hl). split.
    + intros Hs. constructor; [lia|]. apply IH. lia.
    + intros Hall. apply Forall_cons in Hall as [-> Hall].
      apply IH in Hall. lia.
Qed.

Lemma sum_app l1 l2 :
  foldr Z.add 0 (l1 ++ l2) = foldr Z.add 0 l1 + foldr Z.add 0 l2.
Proof. induction l1 as [|x l1 IH]; simpl; lia. Qed.

(** Sums over index ranges. *)
Lemma sum_range_ext n (F G : nat -> Z) :
  (forall k, (k < n)%nat -> F k = G k) ->
  foldr Z.add 0 (F <$> seq 0 n) = foldr Z.add 0 (G <$> seq 0 n).
Proof.
  intros Hext. f_equal. apply list_fmap_ext. intros i k Hk.
  apply lookup_seq in Hk as [-> Hk]. by apply Hext.
Qed.

Lemma sum_range_S n (F : nat -> Z) :
  foldr Z.add 0 (F <$> seq 0 (S n)) = foldr Z.add 0 (F <$> seq 0 n) + F n.
Proof. rewrite seq_S, fmap_app, sum_app. simpl. lia. Qed.

Lemma sum_range_add n (F G : nat -> Z) :
  foldr Z.add 0 ((fun k => F k + G k) <$> seq 0 n)
  = foldr Z.add 0 (F <$> seq 0 n) + foldr Z.add 0 (G <$> seq 0 n).
Proof.
  induction n as [|n IH]; [done|]. rewrite !sum_range_S, IH. lia.
Qed.

Lemma sum_range_swap r c (F : nat -> nat -> Z) :
  foldr Z.add 0 ((fun i => foldr Z.add 0 ((fun j => F i j) <$> seq 0 c))
                   <$> seq 0 r)
  = foldr Z.add 0 ((fun j => foldr Z.add 0 ((fun i => F i j) <$> seq 0 r))
                     <$> seq 0 c).
Proof.
  induction r as [|r IH].
  - simpl. induction c as [|c IHc]; [done|]. rewrite sum_range_S. lia.
  - rewrite sum_range_S, IH.
    rewrite <- sum_range_add. apply sum_range_ext.
    intros j _. by rewrite sum_range_S.
Qed.

(** A list is the list of its elements by index. *)
Lemma list_by_index l n :
  length l = n -> l = (fun j => default 0 (l !! j)) <$> seq 0 n.
Proof.
  intros Hlen. apply list_eq. intros j. rewrite list_lookup_fmap.
  destruct (decide (j < n)%nat) as [Hj | Hj].
  - rewrite lookup_seq_lt by done. simpl.
    destruct (lookup_lt_is_Some_2 l j) as [x Hx]; [lia|]. by rewrite Hx.
  - rewrite lookup_seq_ge by lia. simpl. apply lookup_ge_None_2. lia.
Qed.

End IntegerFacts.

(** ** Further properties of row_sums, column_sums and transpose *)

(** [row_sums] never raises: it returns [[]] on an empty matrix, and
    otherwise one entry per row, the sum of the absolute values of that row
    added to [0], whatever the lengths of the rows. *)
Theorem row_sums_total {A : Type} `{PyNum A} (m : list (list A)) :
  (m = [] \/ hd [] m = [] -> row_sums m = Return []) /\
  (m <> [] -> hd [] m <> [] -> row_sums m = Return (row_abs_sum <$> m)).
Proof.
  split.
  - intros Hm. apply row_sums_empty. by apply is_empty_true.
  - intros Hne Hhd. apply row_sums_value.
    destruct m as [|[|x row] m]; done.
Qed.

Lemma row_sums_total_witness :
  row_sums ([[]; [1]] : list (list Z)) = Return [] /\
  row_sums [[1; -2; 3]; [4]; []] = Return (row_abs_sum <$> [[1; -2; 3]; [4]; []]).
Proof.
  split.
  - apply (proj1 (row_sums_total [[]; [1]])). right. reflexivity.
  - apply (proj2 (row_sums_total [[1; -2; 3]; [4]; []])); discriminate.
Defined.

(** Past its guard, with a first row of [c >= 1] elements, [column_sums]
    returns [c] sums when every row has at least [c] elements, the [j]-th
    being [|m[0][j]| + |m[1][j]| + ...] added from the left to [0] (what a
    longer row has beyond [c] is not read); and it raises IndexError when
    some row has fewer than [c] elements. *)
Theorem column_sums_contract {A : Type} `{PyNum A} (m : list (list A)) (c : nat) :
  m <> [] -> length (hd [] m) = c -> (1 <= c)%nat ->
  (Forall (fun row => (c <= length row)%nat) m ->
     exists sums, column_sums m = Return sums /\ length sums = c /\
       forall j, (j < c)%nat -> sums !! j = Some (col_abs_sum m j)) /\
  (Exists (fun row => (length row < c)%nat) m ->
     column_sums m = Raise IndexError).
Proof.
  intros Hne Hc Hpos. split.
  - intros Hrows. apply column_sums_value; [done | done | lia | done].
  - intros Hex. apply column_sums_short_row.
    + destruct (hd [] m); [simpl in Hc; lia | done].
    + by rewrite Hc.
Qed.

Lemma column_sums_contract_witness :
  (exists sums, column_sums [[1; -2]; [3; 4; 5]] = Return sums /\
     length sums = 2%nat /\
     forall j, (j < 2)%nat ->
       sums !! j = Some (col_abs_sum [[1; -2]; [3; 4; 5]] j)) /\
  column_sums [[1; -2]; [3]] = Raise IndexError.
Proof.
  split.
  - apply (proj1 (column_sums_contract [[1; -2]; [3; 4; 5]] 2
                    ltac:(discriminate) eq_refl ltac:(lia))).
    repeat constructor.
  - apply (proj2 (column_sums_contract [[1; -2]; [3]] 2
                    ltac:(discriminate) eq_refl ltac:(lia))).
    right. left. simpl. lia.
Defined.

(** [transpose] raises IndexError when its first row is not empty and some
    row is shorter than the first one; [two_norm], which starts with
    [transpose], raises it too, before any eigenvalue is computed. *)
Theorem transpose_ragged {A : Type} `{PyNum A} (m : list (list A)) :
  hd [] m <> [] ->
  Exists (fun row => (length row < length (hd [] m))%nat) m ->
  transpose m = Raise IndexError /\
  forall (E : Type) (eigvals : list (list A) -> option (list E))
         (abs_eig : E -> R) (pow_half : R -> R),
    two_norm E eigvals abs_eig pow_half m = Raise IndexError.
Proof.
  intros Hhd Hex. pose proof (transpose_short_row m Hhd Hex) as Ht.
  split; [done|]. intros. unfold two_norm. by rewrite Ht.
Qed.

Lemma transpose_ragged_witness :
  transpose [[1; 2; 3]; [4; 5]; [6; 7; 8]] = Raise IndexError /\
  forall (E : Type) (eigvals : list (list Z) -> option (list E))
         (abs_eig : E -> R) (pow_half : R -> R),
    two_norm E eigvals abs_eig pow_half [[1; 2; 3]; [4; 5]; [6; 7; 8]]
      = Raise IndexError.
Proof.
  apply (transpose_ragged [[1; 2; 3]; [4; 5]; [6; 7; 8]]).
  - discriminate.
  - right. left. simpl. lia.
Defined.

(** ** Integer matrices: how the operations compose *)

Section IntegerMatrices.
Implicit Types m t : list (list Z).

Lemma dot_Z m1 m2 i j n :
  dot m1 m2 i j n
  = foldr Z.add 0 ((fun k => entry0 m1 i k * entry0 m2 k j) <$> seq 0 n).
Proof. apply py_sum_Z. Qed.

Lemma entry0_Some m i j x : entry m i j = Some x -> entry0 m i j = x.
Proof. unfold entry0. by intros ->. Qed.

Lemma transposed_of_sym r c m t : transposed_of r c m t -> transposed_of c r t m.
Proof.
  intros (Hm & Ht & Hent). split; [done|]. split; [done|].
  intros j i Hj Hi. symmetry. by apply Hent.
Qed.

Lemma transposed_of_entry0 r c m t i j :
  transposed_of r c m t -> (i < r)%nat -> (j < c)%nat ->
  entry0 t j i = entry0 m i j.
Proof. intros (_ & _ & Hent) Hi Hj. unfold entry0. by rewrite Hent. Qed.

Lemma transpose_transposed_of r c m :
  has_shape r c m -> (0 < r)%nat -> (0 < c)%nat ->
  exists t, transpose m = Return t /\ transposed_of r c m t.
Proof.
  intros Hm Hr Hc.
  destruct (transpose_spec r c m Hm Hr Hc) as (t & Ht & Hshape & Hent).
  by exists t.
Qed.

(** The row sums of a matrix are the column sums of its transpose. *)
Lemma row_sums_transposed r c m t :
  transposed_of r c m t -> (0 < r)%nat -> (0 < c)%nat ->
  exists sums, row_sums m = Return sums /\ column_sums t = Return sums.
Proof.
  intros (Hm & Ht & Hent) Hr Hc.
  exists (row_abs_sum <$> m). split.
  { apply row_sums_value. by apply (is_empty_shape r c). }
  destruct (column_sums_value t r) as (sums & Hsums & Hlen & Hval).
  - destruct Ht as [L _]. intros ->. simpl in L. lia.
  - by apply (has_shape_hd c r).
  - done.
  - destruct Ht as [_ Hrows]. eapply Forall_impl; [exact Hrows|].
    simpl. intros row ->. done.
  - rewrite Hsums. f_equal. apply list_eq. intros i.
    rewrite list_lookup_fmap.
    destruct (decide (i < r)%nat) as [Hi | Hi].
    + rewrite (Hval i Hi).
      destruct (lookup_lt_is_Some_2 m i) as [row Hrow]; [destruct Hm; lia|].
      rewrite Hrow. simpl. f_equal.
      unfold col_abs_sum, row_abs_sum. simpl. rewrite Z.add_0_l. f_equal.
      pose proof (has_shape_row _ _ _ _ _ Hm Hrow) as Hrlen.
      apply list_eq. intros j. rewrite !list_lookup_fmap.
      destruct (decide (j < c)%nat) as [Hj | Hj].
      * destruct (has_shape_entry _ _ _ _ _ Ht Hj Hi)
          as (trow & x & Htrow & Hx & Hentt).
        rewrite Htrow. simpl. rewrite Hx. simpl.
        specialize (Hent i j Hi Hj). rewrite Hentt in Hent.
        unfold entry in Hent. rewrite Hrow in Hent. simpl in Hent.
        by rewrite <- Hent.
      * destruct Ht as [Htl _].
        rewrite (lookup_ge_None_2 t j), (lookup_ge_None_2 row j) by lia. done.
    + destruct Hm as [Hml _].
      rewrite (lookup_ge_None_2 sums i), (lookup_ge_None_2 m i) by lia. done.
Qed.

End IntegerMatrices.

(** On an integer matrix with [r >= 1] rows and [c >= 1] columns the
    infinity norm is the one-norm of the transpose and the one-norm is the
    infinity norm of the transpose: [row_sums] of either is [column_sums]
    of the other. *)
Theorem norms_of_transpose (py_float : Z -> py R) (r c : nat)
    (m : list (list Z)) :
  has_shape r c m -> (1 <= r)%nat -> (1 <= c)%nat ->
  exists t, transpose m = Return t /\
    row_sums m = column_sums t /\
    column_sums m = row_sums t /\
    infinity_norm py_float m = one_norm py_float t /\
    one_norm py_float m = infinity_norm py_float t.
Proof.
  intros Hm Hr Hc.
  destruct (transpose_transposed_of r c m Hm) as (t & Ht & Htr); [lia..|].
  destruct (row_sums_transposed r c m t Htr) as (s1 & Hr1 & Hc1); [lia..|].
  destruct (row_sums_transposed c r t m (transposed_of_sym _ _ _ _ Htr))
    as (s2 & Hr2 & Hc2); [lia..|].
  exists t. split; [done|].
  unfold infinity_norm, one_norm. rewrite Hr1, Hc1, Hr2, Hc2. done.
Qed.

Lemma norms_of_transpose_witness :
  exists t, transpose [[1; -2; 3]; [-4; 5; -6]] = Return t /\
    row_sums [[1; -2; 3]; [-4; 5; -6]] = column_sums t /\
    column_sums [[1; -2; 3]; [-4; 5; -6]] = row_sums t /\
    infinity_norm (fun x => Return (IZR x)) [[1; -2; 3]; [-4; 5; -6]]
      = one_norm (fun x => Return (IZR x)) t /\
    one_norm (fun x => Return (IZR x)) [[1; -2; 3]; [-4; 5; -6]]
      = infinity_norm (fun x => Return (IZR x)) t.
Proof.
  apply (norms_of_transpose (fun x => Return (IZR x)) 2 3
           [[1; -2; 3]; [-4; 5; -6]]).
  - concrete_shape.
  - lia.
  - lia.
Defined.

Section IntegerProducts.
Implicit Types m t g : list (list Z).

(** The entries of the Gram matrix are the sums of products of two
    columns. *)
Lemma gram_entries r c m :
  has_shape r c m -> (0 < r)%nat -> (0 < c)%nat ->
  exists g, spec_gram m = Return g /\ has_shape c c g /\
    forall i j, (i < c)%nat -> (j < c)%nat ->
      entry g i j =
        Some (foldr Z.add 0
                ((fun k => entry0 m k i * entry0 m k j) <$> seq 0 r)).
Proof.
  intros Hm Hr Hc.
  destruct (gram_shape r c m Hm Hr Hc)
    as (t & g & Ht & Htshape & Htent & Hg & Hgshape & Hgent).
  exists g. unfold spec_gram. rewrite Ht, bind_Return.
  split; [done|]. split; [done|].
  intros i j Hi Hj. rewrite (Hgent i j Hi Hj), dot_Z. f_equal.
  apply sum_range_ext. intros k Hk.
  rewrite (transposed_of_entry0 r c m t k i); [done | | done | done].
  by split.
Qed.

(** The product of the transposes in the other order is the transpose of
    the product. *)
Lemma multiply_transposed r1 c1 c2 m1 m2 t1 t2 p :
  transposed_of r1 c1 m1 t1 -> transposed_of c1 c2 m2 t2 ->
  (0 < r1)%nat -> (0 < c1)%nat -> (0 < c2)%nat ->
  matrix_multiply m1 m2 = Return p ->
  exists q, matrix_multiply t2 t1 = Return q /\ transposed_of r1 c2 p q.
Proof.
  intros H1 H2 Hr1 Hc1 Hc2 Hp.
  destruct H1 as (Hm1 & Ht1 & Hent1). destruct H2 as (Hm2 & Ht2 & Hent2).
  destruct (matrix_multiply_spec r1 c1 c2 m1 m2 Hm1 Hm2 Hr1 Hc1)
    as (p' & Hp' & Hpshape & Hpent).
  rewrite Hp in Hp'. injection Hp' as <-.
  destruct (matrix_multiply_spec c2 c1 r1 t2 t1 Ht2 Ht1 Hc2 Hc1)
    as (q & Hq & Hqshape & Hqent).
  exists q. split; [done|]. split; [done|]. split; [done|].
  intros i j Hi Hj. rewrite (Hqent j i Hj Hi), (Hpent i j Hi Hj). f_equal.
  rewrite !dot_Z. apply sum_range_ext. intros k Hk.
  unfold entry0. rewrite (Hent1 i k Hi Hk), (Hent2 k j Hk Hj). lia.
Qed.

End IntegerProducts.

(** The Gram matrix [matrix_multiply(transpose(m), m)] of an integer matrix
    with [r >= 1] rows and [c >= 1] columns is symmetric, its entry [(i, j)]
    is the sum over the rows [k] of [m[k][i] * m[k][j]], and its diagonal
    is not negative. *)
Theorem gram_symmetric (r c : nat) (m : list (list Z)) :
  has_shape r c m -> (1 <= r)%nat -> (1 <= c)%nat ->
  exists g, spec_gram m = Return g /\ has_shape c c g /\
    (forall i j, (i < c)%nat -> (j < c)%nat ->
       entry g i j =
         Some (foldr Z.add 0
                 ((fun k => entry0 m k i * entry0 m k j) <$> seq 0 r))) /\
    (forall i j, (i < c)%nat -> (j < c)%nat -> entry g i j = entry g j i) /\
    (forall i, (i < c)%nat -> 0 <= entry0 g i i).
Proof.
  intros Hm Hr Hc.
  destruct (gram_entries r c m Hm) as (g & Hg & Hshape & Hent); [lia..|].
  exists g. split; [done|]. split; [done|]. split; [done|]. split.
  - intros i j Hi Hj. rewrite (Hent i j Hi Hj), (Hent j i Hj Hi). f_equal.
    apply sum_range_ext. intros k _. lia.
  - intros i Hi. rewrite (entry0_Some _ _ _ _ (Hent i i Hi Hi)).
    apply sum_nonneg. apply Forall_fmap, Forall_forall. intros k _. simpl. nia.
Qed.

Lemma gram_symmetric_witness :
  exists g, spec_gram [[1; 2]; [3; 4]; [5; 6]] = Return g /\ has_shape 2 2 g /\
    (forall i j, (i < 2)%nat -> (j < 2)%nat ->
       entry g i j =
         Some (foldr Z.add 0
                 ((fun k => entry0 [[1; 2]; [3; 4]; [5; 6]] k i
                            * entry0 [[1; 2]; [3; 4]; [5; 6]] k j)
                    <$> seq 0 3))) /\
    (forall i j, (i < 2)%nat -> (j < 2)%nat -> entry g i j = entry g j i) /\
    (forall i, (i < 2)%nat -> 0 <= entry0 g i i).
Proof.
  apply (gram_symmetric 3 2 [[1; 2]; [3; 4]; [5; 6]]).
  - concrete_shape.
  - lia.
  - lia.
Defined.

(** For integer matrices [m1] ([r1] by [c1]) and [m2] ([c1] by [c2]) with
    all of [r1], [c1], [c2] at least 1, the transpose of the product is the
    product of the transposes in the other order:
    [transpose(matrix_multiply(m1, m2)) ==
     matrix_multiply(transpose(m2), transpose(m1))]. *)
Theorem transpose_of_product (r1 c1 c2 : nat) (m1 m2 : list (list Z)) :
  has_shape r1 c1 m1 -> has_shape c1 c2 m2 ->
  (1 <= r1)%nat -> (1 <= c1)%nat -> (1 <= c2)%nat ->
  exists p t1 t2 q,
    matrix_multiply m1 m2 = Return p /\
    transpose m1 = Return t1 /\ transpose m2 = Return t2 /\
    transpose p = Return q /\ matrix_multiply t2 t1 = Return q.
Proof.
  intros Hm1 Hm2 Hr1 Hc1 Hc2.
  destruct (matrix_multiply_spec r1 c1 c2 m1 m2 Hm1 Hm2)
    as (p & Hp & Hpshape & _); [lia..|].
  destruct (transpose_transposed_of r1 c1 m1 Hm1) as (t1 & Ht1 & Htr1); [lia..|].
  destruct (transpose_transposed_of c1 c2 m2 Hm2) as (t2 & Ht2 & Htr2); [lia..|].
  destruct (transpose_transposed_of r1 c2 p Hpshape) as (q & Hq & Htrq); [lia..|].
  destruct (multiply_transposed r1 c1 c2 m1 m2 t1 t2 p Htr1 Htr2)
    as (q' & Hq' & Htrq'); [lia.. | done |].
  exists p, t1, t2, q. repeat (split; [done|]).
  rewrite Hq'. f_equal.
  destruct Htrq as (_ & Hqs & Hqe). destruct Htrq' as (_ & Hqs' & Hqe').
  apply (matrix_ext c2 r1); [done | done |].
  intros j i Hj Hi. by rewrite (Hqe i j Hi Hj), (Hqe' i j Hi Hj).
Qed.

Lemma transpose_of_product_witness :
  exists p t1 t2 q,
    matrix_multiply [[1; 2; 3]; [4; 5; 6]] [[1; 0]; [2; -1]; [0; 3]] = Return p /\
    transpose [[1; 2; 3]; [4; 5; 6]] = Return t1 /\
    transpose [[1; 0]; [2; -1]; [0; 3]] = Return t2 /\
    transpose p = Return q /\ matrix_multiply t2 t1 = Return q.
Proof.
  apply (transpose_of_product 2 3 2).
  - concrete_shape.
  - concrete_shape.
  - lia.
  - lia.
  - lia.
Defined.

Section IntegerAssociativity.
Implicit Types m : list (list Z).

Lemma sum_range_mul_r n (F : nat -> Z) x :
  foldr Z.add 0 (F <$> seq 0 n) * x
  = foldr Z.add 0 ((fun k => F k * x) <$> seq 0 n).
Proof. induction n as [|n IH]; [done|]. rewrite !sum_range_S, <- IH. lia. Qed.

Lemma sum_range_mul_l n (F : nat -> Z) x :
  x * foldr Z.add 0 (F <$> seq 0 n)
  = foldr Z.add 0 ((fun k => x * F k) <$> seq 0 n).
Proof.
  induction n as [|n IH]; [simpl; lia|]. rewrite !sum_range_S, <- IH. lia.
Qed.

Lemma product_entry0 r1 c1 c2 m1 m2 p i j :
  has_shape r1 c1 m1 -> has_shape c1 c2 m2 ->
  (0 < r1)%nat -> (0 < c1)%nat ->
  matrix_multiply m1 m2 = Return p -> (i < r1)%nat -> (j < c2)%nat ->
  has_shape r1 c2 p /\
  entry0 p i j
  = foldr Z.add 0 ((fun k => entry0 m1 i k * entry0 m2 k j) <$> seq 0 c1).
Proof.
  intros Hm1 Hm2 Hr1 Hc1 Hp Hi Hj.
  destruct (matrix_multiply_spec r1 c1 c2 m1 m2 Hm1 Hm2 Hr1 Hc1)
    as (p' & Hp' & Hshape & Hent).
  rewrite Hp in Hp'. injection Hp' as <-. split; [done|].
  rewrite (entry0_Some _ _ _ _ (Hent i j Hi Hj)). apply dot_Z.
Qed.

End IntegerAssociativity.

(** [matrix_multiply] is associative on integer matrices of matching
    shapes [r1] by [c1], [c1] by [c2] and [c2] by [c3], all at least 1:
    both ways of bracketing return the same matrix. *)
Theorem matrix_multiply_assoc (r1 c1 c2 c3 : nat) (m1 m2 m3 : list (list Z)) :
  has_shape r1 c1 m1 -> has_shape c1 c2 m2 -> has_shape c2 c3 m3 ->
  (1 <= r1)%nat -> (1 <= c1)%nat -> (1 <= c2)%nat -> (1 <= c3)%nat ->
  exists out,
    (p ← matrix_multiply m1 m2; matrix_multiply p m3) = Return out /\
    (s ← matrix_multiply m2 m3; matrix_multiply m1 s) = Return out.
Proof.
  intros Hm1 Hm2 Hm3 Hr1 Hc1 Hc2 Hc3.
  destruct (matrix_multiply_spec r1 c1 c2 m1 m2 Hm1 Hm2)
    as (p & Hp & Hpshape & _); [lia..|].
  destruct (matrix_multiply_spec c1 c2 c3 m2 m3 Hm2 Hm3)
    as (s & Hs & Hsshape & _); [lia..|].
  destruct (matrix_multiply_spec r1 c2 c3 p m3 Hpshape Hm3)
    as (u & Hu & Hushape & Huent); [lia..|].
  destruct (matrix_multiply_spec r1 c1 c3 m1 s Hm1 Hsshape)
    as (v & Hv & Hvshape & Hvent); [lia..|].
  exists u. rewrite Hp, Hs, !bind_Return. split; [done|].
  rewrite Hv. f_equal. apply (matrix_ext r1 c3); [done | done |].
  intros i j Hi Hj. rewrite (Huent i j Hi Hj), (Hvent i j Hi Hj). f_equal.
  rewrite !dot_Z. symmetry.
  transitivity (foldr Z.add 0 ((fun l =>
      foldr Z.add 0 ((fun k => entry0 m1 i k * entry0 m2 k l * entry0 m3 l j)
                       <$> seq 0 c1)) <$> seq 0 c2)).
  - apply (sum_range_ext c2). intros l Hl.
    destruct (product_entry0 r1 c1 c2 m1 m2 p i l) as [_ ->];
      [done | done | lia | lia | done | done | done |].
    apply sum_range_mul_r.
  - rewrite sum_range_swap. apply (sum_range_ext c1). intros k Hk.
    destruct (product_entry0 c1 c2 c3 m2 m3 s k j) as [_ ->];
      [done | done | lia | lia | done | done | done |].
    rewrite sum_range_mul_l. apply (sum_range_ext c2). intros l _. lia.
Qed.

Lemma matrix_multiply_assoc_witness :
  exists out,
    (p ← matrix_multiply [[1; 2]; [3; 4]] [[0; 1; 2]; [1; 0; -1]];
     matrix_multiply p [[1]; [2]; [3]]) = Return out /\
    (s ← matrix_multiply [[0; 1; 2]; [1; 0; -1]] [[1]; [2]; [3]];
     matrix_multiply [[1; 2]; [3; 4]] s) = Return out.
Proof.
  apply (matrix_multiply_assoc 2 2 3 1).
  - concrete_shape.
  - concrete_shape.
  - concrete_shape.
  - lia.
  - lia.
  - lia.
  - lia.
Defined.

(** ** Integer matrices: how the norms compare *)

Section NormOrder.
Implicit Types m : list (list Z).

Lemma elem_of_concat (x : Z) m :
  x ∈ concat m <-> exists row, x ∈ row /\ row ∈ m.
Proof.
  induction m as [|row0 m IH]; simpl.
  - split; [intros Hx; by apply elem_of_nil in Hx|].
    intros (row & _ & Hrow). by apply elem_of_nil in Hrow.
  - rewrite elem_of_app, IH. split.
    + intros [Hx | (row & Hx & Hrow)].
      * exists row0. split; [done | by left].
      * exists row. split; [done | by right].
    + intros (row & Hx & Hrow).
      apply elem_of_cons in Hrow as [-> | Hrow]; [by left|].
      right. by exists row.
Qed.

Lemma abs_in_concat m row e :
  row ∈ m -> e ∈ row -> Z.abs e ∈ Z.abs <$> concat m.
Proof.
  intros Hrow He. apply list_elem_of_fmap_2, elem_of_concat. by exists row.
Qed.

Lemma col_abs_sum_Z m j :
  col_abs_sum m j
  = foldr Z.add 0 ((fun row => Z.abs (default 0 (row !! j))) <$> m).
Proof. apply py_sum_Z. Qed.

Lemma row_abs_sum_Z (row : list Z) :
  row_abs_sum row = foldr Z.add 0 (Z.abs <$> row).
Proof. unfold row_abs_sum. rewrite py_sum_Z. simpl. lia. Qed.

Lemma Forall_abs_nonneg (l : list Z) : Forall (fun x => 0 <= x) (Z.abs <$> l).
Proof. apply Forall_fmap, Forall_forall. intros x _. simpl. lia. Qed.

End NormOrder.

(** On an integer matrix with [r >= 1] rows and [c >= 1] columns the three
    norms apply [float] to integers [a] (max norm), [b] (one-norm) and [d]
    (infinity norm) with [0 <= a], [a <= b <= r * a] and
    [a <= d <= c * a]. *)
Theorem matrix_norm_order (py_float : Z -> py R) (r c : nat)
    (m : list (list Z)) :
  has_shape r c m -> (1 <= r)%nat -> (1 <= c)%nat ->
  exists a b d,
    max_norm py_float m = py_float a /\
    one_norm py_float m = py_float b /\
    infinity_norm py_float m = py_float d /\
    0 <= a /\ a <= b <= Z.of_nat r * a /\ a <= d <= Z.of_nat c * a.
Proof.
  intros Hm Hr Hc.
  assert (concat m <> []) as Hne.
  { pose proof (has_shape_hd r c m Hm ltac:(lia)) as Hhd.
    destruct m as [|[|x row0] m]; simpl in *; [destruct Hm; simpl in *; lia | lia | done]. }
  destruct (py_max_Z (Z.abs <$> concat m)) as (a & Ha & Hain & Hamax).
  { intros Hnil. apply fmap_nil_inv in Hnil. done. }
  destruct (column_sums_value m c) as (cs & Hcs & Hcslen & Hcsval).
  { destruct Hm as [L _]. intros ->. simpl in L. lia. }
  { apply (has_shape_hd r c); [done | lia]. }
  { lia. }
  { destruct Hm as [_ Hrows]. eapply Forall_impl; [exact Hrows|].
    simpl. intros row ->. done. }
  destruct (py_max_Z cs) as (b & Hb & Hbin & Hbmax).
  { intros ->. simpl in Hcslen. lia. }
  pose proof (row_sums_value m (is_empty_shape r c m Hm ltac:(lia) ltac:(lia)))
    as Hrs.
  destruct (py_max_Z (row_abs_sum <$> m)) as (d & Hd & Hdin & Hdmax).
  { intros Hnil. apply fmap_nil_inv in Hnil. subst m.
    destruct Hm as [L _]. simpl in L. lia. }
  exists a, b, d.
  split; [exact (f_equal (fun x => x ≫= py_float) Ha)|].
  split; [unfold one_norm; by rewrite Hcs, bind_Return, Hb|].
  split; [unfold infinity_norm; by rewrite Hrs, bind_Return, Hd|].
  (* the entry whose absolute value is the max norm *)
  apply list_elem_of_fmap in Hain as (e & -> & He).
  apply elem_of_concat in He as (row & He & Hrow).
  apply list_elem_of_lookup in Hrow as [i Hi].
  apply list_elem_of_lookup in He as [j Hj].
  pose proof (has_shape_row _ _ _ _ _ Hm Hi) as Hrowlen.
  pose proof (lookup_lt_Some _ _ _ Hj) as Hjlt.
  split; [lia|]. split; [split|split].
  - (* a <= its column sum <= b *)
    transitivity (col_abs_sum m j).
    + rewrite col_abs_sum_Z. apply sum_ge_elem.
      * apply Forall_fmap, Forall_forall. intros x _. simpl. lia.
      * apply list_elem_of_lookup. exists i.
        rewrite list_lookup_fmap, Hi. simpl. by rewrite Hj.
    + apply Hbmax. apply list_elem_of_lookup. exists j. apply Hcsval. lia.
  - (* b is a column sum of r terms, each at most a *)
    apply list_elem_of_lookup in Hbin as [j' Hj'].
    pose proof (lookup_lt_Some _ _ _ Hj') as Hj'lt.
    rewrite Hcsval in Hj' by lia. injection Hj' as <-.
    rewrite col_abs_sum_Z.
    replace r with (length ((fun row0 => Z.abs (default 0 (row0 !! j'))) <$> m))
      by (rewrite length_fmap; by destruct Hm).
    apply sum_le_bound. apply Forall_fmap, Forall_forall.
    intros row' Hrow'. simpl.
    apply list_elem_of_lookup in Hrow' as [i' Hi'].
    pose proof (has_shape_row _ _ _ _ _ Hm Hi') as Hlen'.
    destruct (lookup_lt_is_Some_2 row' j') as [e' He']; [lia|].
    rewrite He'. simpl. apply Hamax.
    apply (abs_in_concat m row');
      [by eapply list_elem_of_lookup_2 | by eapply list_elem_of_lookup_2].
  - (* a <= its row sum <= d *)
    transitivity (row_abs_sum row).
    + rewrite row_abs_sum_Z. apply sum_ge_elem; [apply Forall_abs_nonneg|].
      apply list_elem_of_fmap_2. by eapply list_elem_of_lookup_2.
    + apply Hdmax. apply list_elem_of_fmap_2. by eapply list_elem_of_lookup_2.
  - (* d is a row sum of c terms, each at most a *)
    apply list_elem_of_fmap in Hdin as (row' & -> & Hrow').
    apply list_elem_of_lookup in Hrow' as [i' Hi'].
    pose proof (has_shape_row _ _ _ _ _ Hm Hi') as Hlen'.
    rewrite row_abs_sum_Z.
    replace c with (length (Z.abs <$> row')) by (by rewrite length_fmap).
    apply sum_le_bound. apply Forall_fmap, Forall_forall.
    intros e' He'. simpl. apply Hamax.
    apply (abs_in_concat m row'); [by eapply list_elem_of_lookup_2 | done].
Qed.

Lemma matrix_norm_order_witness :
  exists a b d,
    max_norm (fun x => Return (IZR x)) [[1; -5; 3]; [2; 4; -6]] = Return (IZR a) /\
    one_norm (fun x => Return (IZR x)) [[1; -5; 3]; [2; 4; -6]] = Return (IZR b) /\
    infinity_norm (fun x => Return (IZR x)) [[1; -5; 3]; [2; 4; -6]]
      = Return (IZR d) /\
    0 <= a /\ a <= b <= Z.of_nat 2 * a /\ a <= d <= Z.of_nat 3 * a.
Proof.
  apply (matrix_norm_order (fun x => Return (IZR x)) 2 3
           [[1; -5; 3]; [2; 4; -6]]).
  - concrete_shape.
  - lia.
  - lia.
Defined.

(** ** Integer vectors *)

Section VectorFacts.
Implicit Types v l : list Z.

Lemma diff_sum_nonneg p l : 0 <= diff_sum p l.
Proof.
  revert p. induction l as [|x l IH]; intros p; cbn [diff_sum]; [lia|].
  specialize (IH x). lia.
Qed.

Lemma diff_sum_snoc p l a b :
  last (p :: l) = Some b ->
  diff_sum p (l ++ [a]) = diff_sum p l + Z.abs (a - b).
Proof.
  revert p. induction l as [|x l IH]; intros p Hlast.
  - simpl in Hlast. injection Hlast as ->. cbn [diff_sum app]. lia.
  - cbn [diff_sum app]. rewrite (IH x); [lia|]. by destruct l.
Qed.

Lemma pd_value_snoc l a b :
  last l = Some b -> pd_value (l ++ [a]) = pd_value l + Z.abs (a - b).
Proof.
  destruct l as [|x l]; [done|]. intros Hlast. simpl.
  rewrite (diff_sum_snoc x l a b Hlast). lia.
Qed.

(** Every element is bounded by the sum of the steps that lead to it. *)
Lemma diff_sum_bound p l x : x ∈ l -> Z.abs x <= Z.abs p + diff_sum p l.
Proof.
  revert p. induction l as [|y l IH]; intros p Hx.
  - by apply elem_of_nil in Hx.
  - simpl. pose proof (diff_sum_nonneg y l).
    apply elem_of_cons in Hx as [-> | Hx]; [lia|].
    specialize (IH y Hx). lia.
Qed.

Lemma diff_sum_le_twice p l :
  diff_sum p l <= Z.abs p + 2 * foldr Z.add 0 (Z.abs <$> l).
Proof.
  revert p. induction l as [|y l IH]; intros p; [simpl; lia|].
  rewrite fmap_cons. cbn [diff_sum foldr]. specialize (IH y). lia.
Qed.

Lemma diff_sum_zero p l :
  diff_sum p l = 0 <-> Forall (fun x => x = p) l.
Proof.
  revert p. induction l as [|y l IH]; intros p; simpl.
  - split; [constructor | done].
  - pose proof (diff_sum_nonneg y l). split.
    + intros Hs. assert (y = p) as -> by lia.
      constructor; [done|]. apply IH. lia.
    + intros Hall. apply Forall_cons in Hall as [-> Hall].
      apply IH in Hall. lia.
Qed.

(** The loop of [previous_difference_norm] stays inside the vector and
    leaves the sum of the absolute steps. *)
Lemma previous_difference_value (py_float : Z -> py R) v :
  v <> [] ->
  VectorNorms.previous_difference_norm py_float v = py_float (pd_value v).
Proof.
  intros Hne. unfold VectorNorms.previous_difference_norm.
  destruct v as [|x0 l] eqn:Hv; [done|]. rewrite <- Hv.
  assert (v !! 0%nat = Some x0) as H0 by by rewrite Hv.
  rewrite (py_get_lookup _ _ _ H0), bind_Return.
  destruct (for_each_inv
    (fun k nv => nv = pd_value (take (S k) v))
    (seq 1 (length v - 1))
    (fun i norm_value =>
       x ← py_get v i; y ← py_get v (i - 1);
       mret (py_add norm_value (py_abs (py_sub x y))))
    (py_abs x0)) as (nv & Hrun & Hnv).
  - rewrite Hv. simpl. lia.
  - intros k i nv Hk ->. apply lookup_seq in Hk as [-> Hk].
    destruct (lookup_lt_is_Some_2 v (1 + k)) as [a Ha]; [lia|].
    destruct (lookup_lt_is_Some_2 v k) as [b Hb]; [lia|].
    rewrite (py_get_lookup _ _ _ Ha), bind_Return.
    replace (1 + k - 1)%nat with k by lia.
    rewrite (py_get_lookup _ _ _ Hb), bind_Return.
    eexists. split; [done|].
    rewrite (take_S_r v (S k) a Ha).
    rewrite (pd_value_snoc (take (S k) v) a b); [done|].
    rewrite last_lookup, length_take_le by lia. simpl.
    rewrite lookup_take_lt by lia. done.
  - rewrite Hrun, bind_Return. rewrite length_seq in Hnv.
    rewrite Hnv. f_equal. f_equal.
    replace (S (length v - 1)) with (length v)
      by (rewrite Hv; simpl; lia).
    apply firstn_all.
Qed.

End VectorFacts.

Lemma pd_value_bound (v : list Z) x : x ∈ v -> Z.abs x <= pd_value v.
Proof.
  destruct v as [|x0 l]; intros Hx; [by apply elem_of_nil in Hx|].
  cbn [pd_value]. pose proof (diff_sum_nonneg x0 l).
  apply elem_of_cons in Hx as [-> | Hx]; [lia|].
  by apply diff_sum_bound.
Qed.

Lemma pd_value_zero (v : list Z) :
  pd_value v = 0 <-> Forall (fun x => x = 0) v.
Proof.
  destruct v as [|x0 l]; [split; [constructor | done]|].
  cbn [pd_value]. pose proof (diff_sum_nonneg x0 l). split.
  - intros Hs. assert (x0 = 0) as -> by lia.
    constructor; [done|]. apply diff_sum_zero. lia.
  - intros Hall. apply Forall_cons in Hall as [-> Hall].
    apply diff_sum_zero in Hall. lia.
Qed.

(** [previous_difference_norm] on integer vectors: [0.0] for no element;
    otherwise the loop never leaves the vector and [float] is applied to
    [|x1| + |x2 - x1| + ... + |xn - x(n-1)|].  That sum bounds the absolute
    value of every element, and it is zero exactly when all elements
    are. *)
Theorem previous_difference_norm_contract (py_float : Z -> py R) (v : list Z) :
  (v = [] -> VectorNorms.previous_difference_norm py_float v = Return 0%R) /\
  (v <> [] ->
     VectorNorms.previous_difference_norm py_float v = py_float (pd_value v)) /\
  (forall x, x ∈ v -> Z.abs x <= pd_value v) /\
  (pd_value v = 0 <-> Forall (fun x => x = 0) v).
Proof.
  split; [by intros ->|]. split; [apply previous_difference_value|].
  split; [apply pd_value_bound | apply pd_value_zero].
Qed.

Lemma previous_difference_norm_contract_witness :
  VectorNorms.previous_difference_norm (fun x => Return (IZR x)) [] = Return 0%R /\
  VectorNorms.previous_difference_norm (fun x => Return (IZR x)) [2; 5; 1; -3]
    = Return (IZR (pd_value [2; 5; 1; -3])) /\
  Z.abs (-3) <= pd_value [2; 5; 1; -3].
Proof.
  split; [|split].
  - apply (proj1 (previous_difference_norm_contract
                    (fun x => Return (IZR x)) [])). reflexivity.
  - apply (proj1 (proj2 (previous_difference_norm_contract
                           (fun x => Return (IZR x)) [2; 5; 1; -3]))).
    discriminate.
  - apply (proj1 (proj2 (proj2 (previous_difference_norm_contract
                                  (fun x => Return (IZR x)) [2; 5; 1; -3])))).
    repeat constructor.
Defined.

(** On a non-empty integer vector the three norms apply [float] to
    integers [a] (max norm), [s] (one-norm) and [pd_value v] (previous
    difference norm) with [0 <= a <= s <= n * a] for the length [n], and
    [a <= pd_value v <= 2 * s]. *)
Theorem vector_norm_order (py_float : Z -> py R) (v : list Z) :
  v <> [] ->
  exists a s,
    VectorNorms.max_norm py_float v = py_float a /\
    VectorNorms.one_norm py_float v = py_float s /\
    VectorNorms.previous_difference_norm py_float v = py_float (pd_value v) /\
    0 <= a <= s /\ s <= Z.of_nat (length v) * a /\
    a <= pd_value v <= 2 * s.
Proof.
  intros Hne.
  destruct (py_max_Z (Z.abs <$> v)) as (a & Ha & Hain & Hamax).
  { intros Hnil. by apply fmap_nil_inv in Hnil. }
  exists a, (foldr Z.add 0 (Z.abs <$> v)).
  split; [exact (f_equal (fun x => x ≫= py_float) Ha)|].
  split; [unfold VectorNorms.one_norm; by rewrite py_sum_Z|].
  split; [by apply previous_difference_value|].
  pose proof (sum_ge_elem (Z.abs <$> v) a (Forall_abs_nonneg v) Hain) as Has.
  pose proof (sum_le_bound (Z.abs <$> v) a
                (proj2 (Forall_forall _ _) Hamax)) as Hsa.
  rewrite length_fmap in Hsa.
  apply list_elem_of_fmap in Hain as (e & -> & He).
  split; [lia|]. split; [done|]. split.
  - by apply pd_value_bound.
  - destruct v as [|x0 l]; [done|]. cbn [pd_value].
    pose proof (diff_sum_le_twice x0 l). rewrite fmap_cons. cbn [foldr]. lia.
Qed.

Lemma vector_norm_order_witness :
  exists a s,
    VectorNorms.max_norm (fun x => Return (IZR x)) [1; -2; 3; -4] = Return (IZR a) /\
    VectorNorms.one_norm (fun x => Return (IZR x)) [1; -2; 3; -4] = Return (IZR s) /\
    VectorNorms.previous_difference_norm (fun x => Return (IZR x)) [1; -2; 3; -4]
      = Return (IZR (pd_value [1; -2; 3; -4])) /\
    0 <= a <= s /\ s <= Z.of_nat (length [1; -2; 3; -4]) * a /\
    a <= pd_value [1; -2; 3; -4] <= 2 * s.
Proof.
  apply (vector_norm_order (fun x => Return (IZR x)) [1; -2; 3; -4]).
  discriminate.
Defined.

(** ** Vectors as matrices *)

Section VectorsAsMatrices.
Variable py_float : Z -> py R.
Implicit Types v : list Z.

Lemma add_row_zeros v :
  zip_with (fun a x : Z => py_add a (py_abs x)) (replicate (length v) py_zero) v
  = Z.abs <$> v.
Proof.
  induction v as [|x v IH]; [done|].
  rewrite fmap_cons. cbn [length replicate zip_with]. by rewrite IH.
Qed.

Lemma row_matrix_norms v :
  v <> [] ->
  MatrixNorms.infinity_norm py_float [v] = VectorNorms.one_norm py_float v /\
  MatrixNorms.one_norm py_float [v] = VectorNorms.max_norm py_float v /\
  MatrixNorms.max_norm py_float [v] = VectorNorms.max_norm py_float v.
Proof.
  intros Hne.
  assert (is_empty [v] = false) as Hm by by destruct v.
  split; [|split].
  - unfold MatrixNorms.infinity_norm. rewrite (row_sums_value [v] Hm).
    unfold VectorNorms.one_norm. simpl. by rewrite Z.add_0_l.
  - unfold MatrixNorms.one_norm, column_sums. rewrite Hm.
    rewrite (column_loop_ok (length v) [v])
      by (by rewrite ?length_replicate || by repeat constructor).
    cbn [foldl hd]. rewrite add_row_zeros. done.
  - unfold MatrixNorms.max_norm, VectorNorms.max_norm. simpl.
    by rewrite app_nil_r.
Qed.

Lemma column_matrix_norms v :
  v <> [] ->
  MatrixNorms.one_norm py_float ((fun x => [x]) <$> v)
    = VectorNorms.one_norm py_float v /\
  MatrixNorms.infinity_norm py_float ((fun x => [x]) <$> v)
    = VectorNorms.max_norm py_float v.
Proof.
  intros Hne. set (m := (fun x => [x]) <$> v).
  assert (m <> []) as Hmne by (destruct v; done).
  assert (is_empty m = false) as Hm by (destruct v; done).
  split.
  - destruct (column_sums_value m 1) as (sums & Hsums & Hlen & Hval).
    { done. } { by destruct v. } { lia. }
    { apply Forall_fmap, Forall_forall. intros x _. simpl. lia. }
    destruct sums as [|s [|]]; [done | | done].
    specialize (Hval 0%nat ltac:(lia)). injection Hval as ->.
    unfold MatrixNorms.one_norm. rewrite Hsums.
    unfold VectorNorms.one_norm, col_abs_sum, m. simpl.
    by rewrite <- list_fmap_compose.
  - unfold MatrixNorms.infinity_norm. rewrite (row_sums_value m Hm).
    unfold VectorNorms.max_norm, m. rewrite bind_Return.
    rewrite <- list_fmap_compose. reflexivity.
Qed.

End VectorsAsMatrices.

(** The matrix norms of an integer vector written as a matrix are its
    vector norms: for the one-row matrix [[v]] the infinity norm is the
    vector one-norm and the one-norm and max norm are the vector max norm;
    for the one-column matrix the one-norm is the vector one-norm and the
    infinity norm is the vector max norm. *)
Theorem vector_as_matrix_norms (py_float : Z -> py R) (v : list Z) :
  v <> [] ->
  MatrixNorms.infinity_norm py_float [v] = VectorNorms.one_norm py_float v /\
  MatrixNorms.one_norm py_float [v] = VectorNorms.max_norm py_float v /\
  MatrixNorms.max_norm py_float [v] = VectorNorms.max_norm py_float v /\
  MatrixNorms.one_norm py_float ((fun x => [x]) <$> v)
    = VectorNorms.one_norm py_float v /\
  MatrixNorms.infinity_norm py_float ((fun x => [x]) <$> v)
    = VectorNorms.max_norm py_float v.
Proof.
  intros Hne.
  destruct (row_matrix_norms py_float v Hne) as (H1 & H2 & H3).
  destruct (column_matrix_norms py_float v Hne) as (H4 & H5).
  done.
Qed.

Lemma vector_as_matrix_norms_witness :
  MatrixNorms.infinity_norm (fun x => Return (IZR x)) [[3; -4]]
    = VectorNorms.one_norm (fun x => Return (IZR x)) [3; -4] /\
  MatrixNorms.one_norm (fun x => Return (IZR x)) [[3; -4]]
    = VectorNorms.max_norm (fun x => Return (IZR x)) [3; -4] /\
  MatrixNorms.max_norm (fun x => Return (IZR x)) [[3; -4]]
    = VectorNorms.max_norm (fun x => Return (IZR x)) [3; -4] /\
  MatrixNorms.one_norm (fun x => Return (IZR x)) [[3]; [-4]]
    = VectorNorms.one_norm (fun x => Return (IZR x)) [3; -4] /\
  MatrixNorms.infinity_norm (fun x => Return (IZR x)) [[3]; [-4]]
    = VectorNorms.max_norm (fun x => Return (IZR x)) [3; -4].
Proof.
  apply (vector_as_matrix_norms (fun x => Return (IZR x)) [3; -4]).
  discriminate.
Defined.

(** ** frobenius_norm on integer matrices *)

Section FrobeniusFacts.
Implicit Types m t : list (list Z).

Lemma frobenius_value (int_pow_half : Z -> py R) m :
  frobenius_norm int_pow_half m = int_pow_half (square_sum m).
Proof. unfold frobenius_norm, square_sum. by rewrite py_sum_Z. Qed.

Lemma squares_nonneg (l : list Z) :
  Forall (fun x => 0 <= x) ((fun e => e ^ 2) <$> l).
Proof. apply Forall_fmap, Forall_forall. intros x _. simpl. nia. Qed.

Lemma sum_concat (f : Z -> Z) m :
  foldr Z.add 0 (f <$> concat m)
  = foldr Z.add 0 ((fun row => foldr Z.add 0 (f <$> row)) <$> m).
Proof.
  induction m as [|row m IH]; [done|].
  rewrite fmap_cons. cbn [concat foldr]. by rewrite fmap_app, sum_app, IH.
Qed.

(** The sum of the squares, row by row and column by column. *)
Lemma square_sum_by_index r c m :
  has_shape r c m ->
  square_sum m
  = foldr Z.add 0 ((fun i =>
      foldr Z.add 0 ((fun j => entry0 m i j ^ 2) <$> seq 0 c)) <$> seq 0 r).
Proof.
  intros Hm. unfold square_sum. rewrite sum_concat. f_equal.
  apply list_eq. intros i. rewrite !list_lookup_fmap.
  destruct (decide (i < r)%nat) as [Hi | Hi].
  - destruct (lookup_lt_is_Some_2 m i) as [row Hrow]; [destruct Hm; lia|].
    rewrite Hrow, lookup_seq_lt by done. simpl. do 2 f_equal.
    pose proof (has_shape_row _ _ _ _ _ Hm Hrow) as Hlen.
    rewrite (list_by_index row c Hlen) at 1.
    rewrite <- list_fmap_compose. apply list_fmap_ext. intros k j _. simpl.
    unfold entry0, entry. by rewrite Hrow.
  - destruct Hm as [Hlen _].
    rewrite (lookup_ge_None_2 m i), lookup_seq_ge by lia. done.
Qed.

Lemma square_sum_transposed r c m t :
  transposed_of r c m t -> square_sum t = square_sum m.
Proof.
  intros Htr. pose proof Htr as (Hm & Ht & _).
  rewrite (square_sum_by_index r c m Hm), (square_sum_by_index c r t Ht).
  rewrite sum_range_swap. apply (sum_range_ext r). intros i Hi.
  apply (sum_range_ext c). intros j Hj.
  by rewrite (transposed_of_entry0 r c m t i j Htr Hi Hj).
Qed.

End FrobeniusFacts.

(** [frobenius_norm] on integer matrices has no failing path before the
    final [** 0.5]: for every list of rows, of any lengths, it raises the
    sum of the squares of all elements to the power [0.5].  That sum is not
    negative, it bounds the square of every element, and it is zero exactly
    when every element is zero. *)
Theorem frobenius_norm_contract (int_pow_half : Z -> py R) (m : list (list Z)) :
  frobenius_norm int_pow_half m = int_pow_half (square_sum m) /\
  0 <= square_sum m /\
  (forall row e, row ∈ m -> e ∈ row -> e ^ 2 <= square_sum m) /\
  (square_sum m = 0 <-> Forall (Forall (fun e => e = 0)) m).
Proof.
  split; [apply frobenius_value|].
  split; [apply sum_nonneg, squares_nonneg|]. split.
  - intros row e Hrow He. apply sum_ge_elem; [apply squares_nonneg|].
    apply (list_elem_of_fmap_2 (fun x => x ^ 2)), elem_of_concat.
    by exists row.
  - unfold square_sum. rewrite (sum_zero _ (squares_nonneg _)).
    rewrite Forall_fmap, <- Forall_concat. split.
    + intros Hall. eapply Forall_impl; [exact Hall|].
      intros e He. simpl in He. nia.
    + intros Hall. eapply Forall_impl; [exact Hall|].
      intros e ->. done.
Qed.

Lemma frobenius_norm_contract_witness :
  frobenius_norm (fun n => Return (sqrt (IZR n))) [[1; 2]; [3; 4]]
    = Return (sqrt (IZR (square_sum [[1; 2]; [3; 4]]))) /\
  0 <= square_sum [[1; 2]; [3; 4]] /\
  4 ^ 2 <= square_sum [[1; 2]; [3; 4]] /\
  square_sum [[0; 0]; [0]] = 0.
Proof.
  destruct (frobenius_norm_contract (fun n => Return (sqrt (IZR n)))
              [[1; 2]; [3; 4]]) as (Hv & Hpos & Hge & _).
  destruct (frobenius_norm_contract (fun n => Return (sqrt (IZR n)))
              [[0; 0]; [0]]) as (_ & _ & _ & Hz).
  split; [exact Hv|]. split; [exact Hpos|]. split.
  - apply (Hge [3; 4] 4).
    + apply list_elem_of_lookup. exists 1%nat. reflexivity.
    + apply list_elem_of_lookup. exists 1%nat. reflexivity.
  - apply (proj2 Hz). repeat constructor.
Defined.

(** On an integer matrix with [r >= 1] rows and [c >= 1] columns,
    [frobenius_norm] of the transpose is [frobenius_norm] of the matrix,
    and the sum of squares under the root is the trace of the Gram matrix
    that [two_norm] computes. *)
Theorem frobenius_norm_transpose (int_pow_half : Z -> py R) (r c : nat)
    (m : list (list Z)) :
  has_shape r c m -> (1 <= r)%nat -> (1 <= c)%nat ->
  exists t g,
    transpose m = Return t /\
    frobenius_norm int_pow_half t = frobenius_norm int_pow_half m /\
    spec_gram m = Return g /\
    foldr Z.add 0 ((fun j => entry0 g j j) <$> seq 0 c) = square_sum m.
Proof.
  intros Hm Hr Hc.
  destruct (transpose_transposed_of r c m Hm) as (t & Ht & Htr); [lia..|].
  destruct (gram_entries r c m Hm) as (g & Hg & Hshape & Hent); [lia..|].
  exists t, g. split; [done|]. split.
  { by rewrite !frobenius_value, (square_sum_transposed r c m t Htr). }
  split; [done|].
  rewrite (square_sum_by_index r c m Hm), sum_range_swap.
  apply (sum_range_ext c). intros j Hj.
  rewrite (entry0_Some _ _ _ _ (Hent j j Hj Hj)).
  apply (sum_range_ext r). intros k _. lia.
Qed.

Lemma frobenius_norm_transpose_witness :
  exists t g,
    transpose [[1; 2; 3]; [4; 5; 6]] = Return t /\
    frobenius_norm (fun n => Return (sqrt (IZR n))) t
      = frobenius_norm (fun n => Return (sqrt (IZR n))) [[1; 2; 3]; [4; 5; 6]] /\
    spec_gram [[1; 2; 3]; [4; 5; 6]] = Return g /\
    foldr Z.add 0 ((fun j => entry0 g j j) <$> seq 0 3)
      = square_sum [[1; 2; 3]; [4; 5; 6]].
Proof.
  apply (frobenius_norm_transpose (fun n => Return (sqrt (IZR n))) 2 3).
  - concrete_shape.
  - lia.
  - lia.
Defined.

(** ** matrix_multiply on rows of different lengths *)

(** A loop raises [e] when every iteration either raises [e] or returns and
    keeps the invariant, and some iteration raises whenever it is reached. *)
Lemma for_each_raise_reached {T St} (Inv : St -> Prop) (bad : T -> Prop)
    (e : exn) (xs : list T) body s :
  Inv s ->
  (forall x s, x ∈ xs -> Inv s ->
     body x s = Raise e \/ exists s', body x s = Return s' /\ Inv s') ->
  (forall x s, x ∈ xs -> Inv s -> bad x -> body x s = Raise e) ->
  Exists bad xs ->
  for_each xs body s = Raise e.
Proof.
  revert s. induction xs as [|x xs IH]; intros s Hs Hstep Hbad Hex.
  - by apply Exists_nil in Hex.
  - simpl. destruct (Hstep x s ltac:(left) Hs) as [-> | (s' & Hs' & Hinv)];
      [done|].
    rewrite Hs', bind_Return. apply IH; [done | | |].
    + intros y t Hy. apply Hstep. by right.
    + intros y t Hy. apply Hbad. by right.
    + apply Exists_cons in Hex as [Hx | Hex]; [|done].
      rewrite (Hbad x s ltac:(left) Hs Hx) in Hs'. discriminate.
Qed.

Lemma py_get_outside {T} (l : list T) i :
  (length l <= i)%nat -> py_get l i = Raise IndexError.
Proof. intros Hi. unfold py_get. by rewrite lookup_ge_None_2. Qed.

Lemma py_get_cases {T} (l : list T) i :
  py_get l i = Raise IndexError \/ exists x, py_get l i = Return x.
Proof. unfold py_get. destruct (l !! i); eauto. Qed.

Section MultiplyRagged.
Context {A : Type} `{PyNum A}.
Implicit Types m : list (list A).

(** The product term [m1[i][k] * m2[k][j]] as the generator evaluates it. *)
Local Abbreviation term m1 m2 i j := (fun k : nat =>
  r1 ← py_get m1 i; a ← py_get r1 k; r2 ← py_get m2 k; b ← py_get r2 j;
  mret (py_mul a b)).

Lemma term_cases m1 m2 i j k :
  term m1 m2 i j k = Raise IndexError \/ exists x, term m1 m2 i j k = Return x.
Proof.
  destruct (py_get_cases m1 i) as [-> | [r1 ->]]; [by left|].
  rewrite bind_Return.
  destruct (py_get_cases r1 k) as [-> | [a ->]]; [by left|].
  rewrite bind_Return.
  destruct (py_get_cases m2 k) as [-> | [r2 ->]]; [by left|].
  rewrite bind_Return.
  destruct (py_get_cases r2 j) as [-> | [b ->]]; [by left|].
  rewrite bind_Return. right. by eexists.
Qed.

Lemma term_outside m1 m2 i j k :
  outside m1 m2 i j k -> term m1 m2 i j k = Raise IndexError.
Proof.
  intros [(r1 & Hr1 & Hlen) | (r2 & Hr2 & Hlen)].
  - rewrite (py_get_lookup _ _ _ Hr1), bind_Return.
    by rewrite (py_get_outside r1 k Hlen).
  - destruct (py_get_cases m1 i) as [-> | [r1 ->]]; [done|].
    rewrite bind_Return.
    destruct (py_get_cases r1 k) as [-> | [a ->]]; [done|].
    rewrite bind_Return.
    rewrite (py_get_lookup _ _ _ Hr2), bind_Return.
    by rewrite (py_get_outside r2 j Hlen).
Qed.

Lemma sum_cases m1 m2 i j n :
  py_sum_range n (term m1 m2 i j) = Raise IndexError \/
  exists s, py_sum_range n (term m1 m2 i j) = Return s.
Proof.
  unfold py_sum_range, for_range. generalize (py_zero : A) as acc.
  induction (seq 0 n) as [|k ks IH]; intros acc; [right; by eexists|].
  cbn [for_each].
  destruct (term_cases m1 m2 i j k) as [-> | [x ->]]; [by left|].
  rewrite bind_Return. apply IH.
Qed.

Lemma sum_outside m1 m2 i j n k :
  (k < n)%nat -> outside m1 m2 i j k ->
  py_sum_range n (term m1 m2 i j) = Raise IndexError.
Proof.
  intros Hk Hout. unfold py_sum_range, for_range.
  apply (for_each_raise_reached (fun _ => True)
           (fun k => outside m1 m2 i j k)); [done | | |].
  - intros k' acc _ _.
    destruct (term_cases m1 m2 i j k') as [-> | [x ->]]; [by left|].
    right. rewrite bind_Return. by eexists.
  - intros k' acc _ _ Hbad. by rewrite (term_outside m1 m2 i j k' Hbad).
  - apply Exists_exists. exists k. split; [|done].
    apply list_elem_of_lookup. exists k. apply lookup_seq. split; [done | lia].
Qed.

(** With a first matrix of [r1 >= 1] rows whose first row has [c1 >= 1]
    elements, and a second matrix of [c1] rows whose first row has
    [c2 >= 1] elements, [matrix_multiply] raises when some read falls
    outside a row. *)
Lemma matrix_multiply_outside m1 m2 r1 c1 c2 i j k :
  length m1 = r1 -> length (hd [] m1) = c1 ->
  length m2 = c1 -> length (hd [] m2) = c2 ->
  (i < r1)%nat -> (j < c2)%nat -> (k < c1)%nat ->
  outside m1 m2 i j k ->
  matrix_multiply m1 m2 = Raise IndexError.
Proof.
  intros Hr1 Hc1 Hr2 Hc2 Hi Hj Hk Hout.
  rewrite matrix_multiply_unfold;
    [| intros ->; simpl in Hr1; lia | intros ->; simpl in Hr2; lia].
  rewrite Hr1, Hc1, Hr2, Hc2, Nat.eqb_refl. cbn [negb]. unfold for_range at 1.
  apply (for_each_raise_reached (fun res => has_shape r1 c2 res)
           (fun i' => i' = i)).
  - apply has_shape_replicate.
  - intros i' res Hi' Hres.
    apply list_elem_of_lookup in Hi' as [n Hn].
    apply lookup_seq in Hn as [-> Hn]. simpl in *.
    (* the loop over the columns for row n *)
    assert (forall js res0, has_shape r1 c2 res0 ->
              Forall (fun j' => (j' < c2)%nat) js ->
              for_each js (fun j' result_matrix =>
                s ← py_sum_range c1 (term m1 m2 n j');
                MatrixOperations.set_entry result_matrix n j' s) res0
                = Raise IndexError \/
              exists res', for_each js (fun j' result_matrix =>
                s ← py_sum_range c1 (term m1 m2 n j');
                MatrixOperations.set_entry result_matrix n j' s) res0
                = Return res' /\ has_shape r1 c2 res') as Hcols.
    { induction js as [|j' js IH]; intros res0 Hres0 Hjs.
      - right. by exists res0.
      - apply Forall_cons in Hjs as [Hj' Hjs]. cbn [for_each].
        destruct (sum_cases m1 m2 n j' c1) as [-> | [s ->]]; [by left|].
        rewrite bind_Return.
        destruct (set_entry_spec r1 c2 res0 n j' s Hres0 Hn Hj')
          as (res1 & -> & Hres1 & _).
        rewrite bind_Return. by apply IH. }
    apply Hcols; [done|]. apply Forall_forall. intros j' Hj'.
    apply list_elem_of_lookup in Hj' as [n' Hn'].
    apply lookup_seq in Hn' as [-> Hn']. simpl. lia.
  - intros i' res Hi' Hres ->. unfold for_range.
    apply (for_each_raise_reached (fun res => has_shape r1 c2 res)
             (fun j' => j' = j)); [done | | |].
    + intros j' res0 Hj' Hres0.
      apply list_elem_of_lookup in Hj' as [n Hn].
      apply lookup_seq in Hn as [-> Hn]. simpl in *.
      destruct (sum_cases m1 m2 i n c1) as [-> | [s ->]]; [by left|].
      rewrite bind_Return. right.
      destruct (set_entry_spec r1 c2 res0 i n s Hres0 Hi Hn)
        as (res1 & -> & Hres1 & _).
      by exists res1.
    + intros j' res0 _ _ ->. by rewrite (sum_outside m1 m2 i j c1 k Hk Hout).
    + apply Exists_exists. exists j. split; [|done].
      apply list_elem_of_lookup. exists j. apply lookup_seq. split; [done | lia].
  - apply Exists_exists. exists i. split; [|done].
    apply list_elem_of_lookup. exists i. apply lookup_seq. split; [done | lia].
Qed.

End MultiplyRagged.

(** Past its guards (both matrices have rows, the first row of the first
    has as many elements as the second has rows, and the first row of the
    second is not empty), [matrix_multiply] raises IndexError when a row of
    either matrix is shorter than the first row of that matrix. *)
Theorem matrix_multiply_ragged {A : Type} `{PyNum A} (m1 m2 : list (list A)) :
  m1 <> [] -> m2 <> [] ->
  length (hd [] m1) = length m2 -> hd [] m2 <> [] ->
  Exists (fun row => (length row < length (hd [] m1))%nat) m1 \/
  Exists (fun row => (length row < length (hd [] m2))%nat) m2 ->
  matrix_multiply m1 m2 = Raise IndexError.
Proof.
  intros Hne1 Hne2 Hinner Hhd2 Hshort.
  assert (0 < length m1)%nat as Hr1 by (destruct m1; [done | simpl; lia]).
  assert (0 < length m2)%nat as Hr2 by (destruct m2; [done | simpl; lia]).
  assert (0 < length (hd [] m2))%nat as Hc2
    by (destruct (hd [] m2); [done | simpl; lia]).
  destruct Hshort as [Hex | Hex];
    apply Exists_exists in Hex as (row & Hrow & Hlen);
    apply list_elem_of_lookup in Hrow as [n Hn];
    pose proof (lookup_lt_Some _ _ _ Hn) as Hnlt.
  - apply (matrix_multiply_outside m1 m2 (length m1) (length m2)
             (length (hd [] m2)) n 0%nat (length row));
      [done | done | done | done | done | done | lia |].
    left. by exists row.
  - apply (matrix_multiply_outside m1 m2 (length m1) (length m2)
             (length (hd [] m2)) 0%nat (length row) n);
      [done | done | done | done | done | done | done |].
    right. by exists row.
Qed.

Lemma matrix_multiply_ragged_witness :
  matrix_multiply [[1; 2]; [3]] [[1; 0]; [0; 1]] = Raise IndexError /\
  matrix_multiply [[1; 2]; [3; 4]] [[1; 0]; [0]] = Raise IndexError.
Proof.
  split.
  - apply (matrix_multiply_ragged [[1; 2]; [3]] [[1; 0]; [0; 1]]);
      [discriminate | discriminate | reflexivity | discriminate |].
    left. right. left. simpl. lia.
  - apply (matrix_multiply_ragged [[1; 2]; [3; 4]] [[1; 0]; [0]]);
      [discriminate | discriminate | reflexivity | discriminate |].
    right. right. left. simpl. lia.
Defined.

(** ** The sign of the two-norm *)

Section SignFacts.
Open Scope R_scope.
Implicit Types l : list R.






End SignFacts.

Section GramTrace.
Implicit Types m g : list (list Z).




End GramTrace.

Section SignOfTwoNorm.
Context {A : Type} `{PyNum A}.
Variable E : Type.
Variable eigvals : list (list A) -> option (list E).
Variable abs_eig : E -> R.
Variable pow_half : R -> R.


End SignOfTwoNorm.



